(** * Symptom-risk inference core: encoding, ranking, leave-one-out analysis

    Shallow embedding of
      - [backend/model/model.py]     ([normalize_symptom]),
      - [backend/model/encoding.py]  ([encode_user_symptoms]),
      - [backend/model/predict.py]   ([predict_top_k_from_json],
                                      [calculate_symptom_contributions]).

    Conventions of the embedding.
      - A Python [str] is a Rocq [string]: a sequence of code points below
        256.  On these code points [str.strip], [str.lower] and
        [str.replace] act character by character exactly as written below
        (the whitespace set and the case table are CPython's, restricted to
        Latin-1).
      - Python [int] is [Z].  A finite float is the rational [Q] it
        denotes, compared with [==].  [calculate_symptom_contributions]
        computes with the exact results of the arithmetic operations;
        [calculate_symptom_contributions_fl] takes the arithmetic as a
        parameter and rounds the result of every operation, with [fl64] the
        rounding of binary64; infinities and NaN are not modelled.
      - A [dict] is a [gmap]; a list indexed by position is a [list] with
        stdpp's lookup and insert.
      - Exceptions are values of [exn], threaded through the [result]
        monad. *)

From Stdlib Require Import ZArith QArith Qround Qminmax Qpower Qabs Lqa Lia Ascii String
  Sorted.
From stdpp Require Import gmap strings list fin_maps sorting.

Local Open Scope string_scope.

(** ** Python strings *)

Module PyStr.

(** [str.isspace] on one code point below 256. *)
Definition isspace (c : ascii) : bool :=
  let n := N_of_ascii c in
  ((9 <=? n) && (n <=? 13) || (28 <=? n) && (n <=? 32)
   || (n =? 133) || (n =? 160))%N.

(** [str.lower] on one code point below 256: A-Z and the Latin-1 capitals
    (all of 0xC0-0xDE except the multiplication sign 0xD7) move up by 32. *)
Definition lower_char (c : ascii) : ascii :=
  let n := N_of_ascii c in
  if ((65 <=? n) && (n <=? 90)
      || (192 <=? n) && (n <=? 222) && negb (n =? 215))%N
  then ascii_of_N (n + 32) else c.

Fixpoint map_chars (f : ascii -> ascii) (s : string) : string :=
  match s with
  | EmptyString => EmptyString
  | String c r => String (f c) (map_chars f r)
  end.

(** [str.lower()]. *)
Definition lower (s : string) : string := map_chars lower_char s.

(** [str.lstrip()]: drop leading whitespace. *)
Fixpoint lstrip (s : string) : string :=
  match s with
  | EmptyString => EmptyString
  | String c r => if isspace c then lstrip r else s
  end.

(** [str.rstrip()]: drop trailing whitespace. *)
Fixpoint rstrip (s : string) : string :=
  match s with
  | EmptyString => EmptyString
  | String c r =>
      match rstrip r with
      | EmptyString => if isspace c then EmptyString else String c EmptyString
      | r' => String c r'
      end
  end.

(** [str.strip()]. *)
Definition strip (s : string) : string := lstrip (rstrip s).

(** [s.startswith(p)]. *)
Fixpoint startswith (p s : string) : bool :=
  match p, s with
  | EmptyString, _ => true
  | String a p', String b s' => if Ascii.eqb a b then startswith p' s' else false
  | String _ _, EmptyString => false
  end.

(** [s.replace(old, new)] for a non-empty [old]: the non-overlapping
    occurrences of [old] are replaced from left to right, in one pass.
    [skip] counts the characters of a matched occurrence still to be
    consumed. *)
Fixpoint replace_from (old new : string) (skip : nat) (s : string) : string :=
  match s with
  | EmptyString => EmptyString
  | String c r =>
      match skip with
      | S k => replace_from old new k r
      | O =>
          if startswith old s
          then new ++ replace_from old new (String.length old - 1) r
          else String c (replace_from old new 0 r)
      end
  end.

Definition replace (s old new : string) : string := replace_from old new 0 s.

End PyStr.

(** ** Python values that reach the core *)

(** The JSON scalars a request can carry as a symptom.  Every non-[str]
    object behaves alike in the code below: it has no [strip] attribute and
    fails [isinstance(_, str)]. *)
Inductive pyobj : Type :=
| PyStr (s : string)
| PyInt (n : Z)
| PyNone.

Inductive exn : Type :=
| AttributeError
| KeyError
| IndexError
| ValueError.

Inductive result (A : Type) : Type :=
| Ok (a : A)
| Raise (e : exn).
Arguments Ok {A} a.
Arguments Raise {A} e.

#[global] Instance result_ret : MRet result := fun A a => Ok a.

#[global] Instance result_bind : MBind result := fun A B f m =>
  match m with
  | Ok a => f a
  | Raise e => Raise e
  end.

(** A [for] loop whose body may raise: the accumulator is threaded through
    the items in order and the first exception aborts the loop. *)
Fixpoint for_each {A S : Type} (body : S -> A -> result S) (acc : S) (items : list A)
  : result S :=
  match items with
  | [] => Ok acc
  | x :: rest => acc' ← body acc x; for_each body acc' rest
  end.

(** ** model.py *)

(** [normalize_symptom]: the [isinstance] test, then the four chained string
    methods. *)
Definition normalize_symptom (symptom : pyobj) : string :=
  match symptom with
  | PyStr s =>
      PyStr.replace (PyStr.replace (PyStr.lower (PyStr.strip s)) " " "_") "__" "_"
  | _ => ""
  end.

(** ** encoding.py *)

(** The dictionary comprehension [{name: i for i, name in enumerate(names)}]:
    items are inserted in order, so a repeated name keeps its last index. *)
Definition index_dict (names : list string) : gmap string nat :=
  foldl (fun m p => <[p.2 := p.1]> m) ∅ (imap pair names).

(** A request body: the JSON object, of which only the ["symptoms"] entry
    (a list) is read. *)
Definition symptoms_of (request_json : gmap string (list pyobj)) : list pyobj :=
  default [] (request_json !! "symptoms").

(** Line 50 on a [str]: [symptom.strip().lower().replace(" ", "_")]. *)
Definition clean_str (s : string) : string :=
  PyStr.replace (PyStr.lower (PyStr.strip s)) " " "_".

(** Line 50 on any object: one that is not a [str] has no [strip]. *)
Definition clean_symptom (symptom : pyobj) : result string :=
  match symptom with
  | PyStr s => Ok (clean_str s)
  | _ => Raise AttributeError
  end.

(** [severity_lookup.get(symptom, 1)]; the table has [str] keys only. *)
Definition severity_get (severity_lookup : gmap string Z) (symptom : pyobj) : Z :=
  match symptom with
  | PyStr s => default 1%Z (severity_lookup !! s)
  | _ => 1%Z
  end.

(** Body of the loop of [encode_user_symptoms] (lines 48-55).  The index
    comes from [feature_to_idx], hence is within the vector. *)
Definition encode_body (feature_to_idx : gmap string nat) (severity_lookup : gmap string Z)
    (vector : list Z) (symptom : pyobj) : result (list Z) :=
  clean ← clean_symptom symptom;
  match feature_to_idx !! clean with
  | Some index => Ok (<[index := severity_get severity_lookup symptom]> vector)
  | None => Ok vector
  end.

Definition encode_user_symptoms (request_json : gmap string (list pyobj))
    (feature_columns : list string) (severity_lookup : gmap string Z) : result (list Z) :=
  let vector := replicate (length feature_columns) 0%Z in
  let input_symptoms := symptoms_of request_json in
  let feature_to_idx := index_dict feature_columns in
  for_each (encode_body feature_to_idx severity_lookup) vector input_symptoms.

(** ** predict.py *)

(** The loaded classifier: its class labels and [predict_proba] on one
    feature vector, which may raise. *)
Record classifier : Type := {
  classes_ : list string;
  predict_proba : list Z -> result (list Q);
}.

Record prediction : Type := {
  disease : string;
  probability : Q;
}.

(** [round(x, ndigits)] on an exact rational: scale by [10 ^ ndigits], round
    to the nearest integer with ties to even, scale back. *)
Definition round_half_even (y : Q) : Z :=
  let f := Qfloor y in
  match (y - inject_Z f ?= 1 # 2)%Q with
  | Lt => f
  | Gt => (f + 1)%Z
  | Eq => if Z.even f then f else (f + 1)%Z
  end.

Definition py_round (x : Q) (ndigits : positive) : Q :=
  Qred (round_half_even (x * inject_Z (Z.pos (10 ^ ndigits))) # 10 ^ ndigits)%Q.

(** [sorted(pairs, key=lambda x: x[1], reverse=True)]: a stable sort in
    descending key order (pairs with equal keys keep their input order). *)
Fixpoint insert_desc (x : string * Q) (l : list (string * Q)) : list (string * Q) :=
  match l with
  | [] => [x]
  | y :: l' => if Qle_bool y.2 x.2 then x :: l else y :: insert_desc x l'
  end.

Definition sorted_desc (l : list (string * Q)) : list (string * Q) :=
  foldr insert_desc [] l.

(** The slice [l[:k]]: a negative [k] counts from the end. *)
Definition slice_to {A : Type} (l : list A) (k : Z) : list A :=
  if (0 <=? k)%Z then take (Z.to_nat k) l
  else take (length l - Z.to_nat (- k)) l.

(** The dictionary appended for one (class, probability) pair. *)
Definition format_prediction (dp : string * Q) : prediction :=
  {| disease := dp.1; probability := py_round dp.2 4 |}.

(** Lines 54-67 of [predict_top_k_from_json]: pair, sort, slice, format. *)
Definition rank_top_k (classes : list string) (probabilities : list Q) (k : Z)
  : list prediction :=
  let disease_probs := sorted_desc (zip classes probabilities) in
  format_prediction <$> slice_to disease_probs k.

Definition predict_top_k_from_json (model : classifier)
    (request_json : gmap string (list pyobj)) (feature_columns : list string)
    (severity_table : gmap string Z) (k : Z) : result (list prediction) :=
  vector ← encode_user_symptoms request_json feature_columns severity_table;
  probabilities ← predict_proba model vector;
  Ok (rank_top_k (classes_ model) probabilities k).

(** [d[key]] on a dict and [l[i]] on a list. *)
Definition dict_getitem {A : Type} (d : gmap string A) (key : string) : result A :=
  match d !! key with
  | Some a => Ok a
  | None => Raise KeyError
  end.

Definition list_getitem {A : Type} (l : list A) (i : nat) : result A :=
  match l !! i with
  | Some a => Ok a
  | None => Raise IndexError
  end.

(** [max(0, x)]: the second argument wins only when it is strictly larger. *)
Definition max0 (x : Q) : Q := if Qle_bool x 0 then 0%Q else x.

(** Body of the inner loop (lines 108-128): one leave-one-out experiment. *)
Definition symptom_body (model : classifier) (feature_to_idx : gmap string nat)
    (severity_table : gmap string Z) (baseline_vector : list Z)
    (d_idx : nat) (baseline_prob : Q)
    (disease_scores : gmap string Q) (symptom : pyobj) : result (gmap string Q) :=
  match symptom with
  | PyStr s =>
      match feature_to_idx !! s with
      | None => Ok disease_scores
      | Some s_idx =>
          let temp_vector := <[s_idx := 0%Z]> baseline_vector in
          new_probs ← predict_proba model temp_vector;
          new_prob ← list_getitem new_probs d_idx;
          let prob_drop := max0 (baseline_prob - new_prob)%Q in
          let weight := severity_get severity_table symptom in
          Ok (<[s := (prob_drop * inject_Z weight)%Q]> disease_scores)
      end
  | _ => Ok disease_scores
  end.

(** Body of the outer loop (lines 101-130). *)
Definition disease_body (model : classifier) (selected_symptoms : list pyobj)
    (feature_to_idx : gmap string nat) (disease_to_idx : gmap string nat)
    (severity_table : gmap string Z) (baseline_vector : list Z) (baseline_probs : list Q)
    (raw_impact_results : gmap string (gmap string Q)) (pred : prediction)
  : result (gmap string (gmap string Q)) :=
  let disease := disease pred in
  d_idx ← dict_getitem disease_to_idx disease;
  baseline_prob ← list_getitem baseline_probs d_idx;
  disease_scores ←
    for_each (symptom_body model feature_to_idx severity_table baseline_vector
                d_idx baseline_prob) ∅ selected_symptoms;
  Ok (<[disease := disease_scores]> raw_impact_results).

(** Lines 84-130: the table of raw scores. *)
Definition raw_impact (model : classifier) (request_json : gmap string (list pyobj))
    (predictions : list prediction) (feature_columns : list string)
    (severity_table : gmap string Z) : result (gmap string (gmap string Q)) :=
  let selected_symptoms := symptoms_of request_json in
  baseline_vector ← encode_user_symptoms request_json feature_columns severity_table;
  baseline_probs ← predict_proba model baseline_vector;
  let disease_to_idx := index_dict (classes_ model) in
  let feature_to_idx := index_dict feature_columns in
  for_each (disease_body model selected_symptoms feature_to_idx disease_to_idx
              severity_table baseline_vector baseline_probs) ∅ predictions.

Record contribution : Type := {
  raw : Q;
  scaled : Q;
}.

(** [d.values()]. *)
Definition dict_values {A : Type} (d : gmap string A) : list A := (map_to_list d).*2.

(** Line 134: every score of every disease, in one list. *)
Definition all_scores (raw_impact_results : gmap string (gmap string Q)) : list Q :=
  d_scores ← dict_values raw_impact_results; dict_values d_scores.

(** [max(l)] on a non-empty list: a later item wins only when strictly
    larger. *)
Definition py_max (x : Q) (l : list Q) : Q :=
  foldl (fun m y => if Qle_bool y m then m else y) x l.

(** Line 135. *)
Definition highest_impact (raw_impact_results : gmap string (gmap string Q)) : Q :=
  match all_scores raw_impact_results with
  | [] => 1%Q
  | x :: l => py_max x l
  end.

(** Lines 141-145: one entry of the final analysis. *)
Definition scale_entry (highest : Q) (score : Q) : contribution :=
  {| raw := py_round score 6;
     scaled := if Qle_bool highest 0 then 0%Q
               else py_round (score / highest * 100)%Q 2 |}.

(** Lines 132-147: scaling for the UI. *)
Definition scale_contributions (raw_impact_results : gmap string (gmap string Q))
  : gmap string (gmap string contribution) :=
  let highest := highest_impact raw_impact_results in
  (fun scores : gmap string Q => scale_entry highest <$> scores) <$> raw_impact_results.

Definition calculate_symptom_contributions (model : classifier)
    (request_json : gmap string (list pyobj)) (predictions : list prediction)
    (feature_columns : list string) (severity_table : gmap string Z)
  : result (gmap string (gmap string contribution)) :=
  raw_impact_results ←
    raw_impact model request_json predictions feature_columns severity_table;
  Ok (scale_contributions raw_impact_results).

(** ** Floating point *)

(** The probabilities and scores of [predict.py] are binary64 numbers.  A
    finite one is a rational, and an arithmetic operation returns the exact
    result rounded to a representable number.  The definitions above compute
    with the exact results; the ones below take the arithmetic as a
    parameter: [fl] rounds the exact result of a subtraction, product,
    quotient or conversion from [int], and [round_to x n] is [round(x, n)].
    CPython's [float] and NumPy's [float64] have the same [fl] and differ in
    [round]. *)
Record float_arith : Type := {
  fl : Q -> Q;
  round_to : Q -> positive -> Q;
}.

(** [ilog2 x] is the integer [e] with [2 ^ e <= x < 2 ^ (e + 1)], for [0 < x]. *)
Definition ilog2 (x : Q) : Z :=
  let e := (Z.log2 (Qnum x) - Z.log2 (Z.pos (Qden x)))%Z in
  if Qle_bool (2 ^ e) x then e else (e - 1)%Z.

(** The binary64 exponent of [0 < x]: at least -1022, below which the
    numbers are subnormal. *)
Definition exponent (x : Q) : Z := Z.max (ilog2 x) (-1022).

(** The distance between neighbouring binary64 numbers around [x]: 52
    fraction bits below the leading bit. *)
Definition ulp (x : Q) : Q := (2 ^ (exponent x - 52))%Q.

(** Rounding to binary64 (IEEE 754, to nearest, ties to even) of [0 < x]:
    the nearest multiple of [ulp x], ties to the even multiple.  Overflow to
    infinity is not modelled. *)
Definition fl64_pos (x : Q) : Q :=
  (inject_Z (round_half_even (x / ulp x)) * ulp x)%Q.

Definition fl64 (x : Q) : Q :=
  match (x ?= 0)%Q with
  | Eq => 0%Q
  | Gt => fl64_pos x
  | Lt => (- fl64_pos (- x))%Q
  end.

(** Exact arithmetic: nothing is rounded but by [round]. *)
Definition exact_arith : float_arith :=
  {| fl := fun x => x; round_to := py_round |}.

(** CPython's [float]: [round(x, n)] is the float nearest to the decimal
    with [n] digits that is nearest to [x], ties to the even digit. *)
Definition python_float : float_arith :=
  {| fl := fl64; round_to := fun x n => fl64 (py_round x n) |}.

(** NumPy's [float64], the type of the probabilities of a scikit-learn
    classifier: its [round(x, n)] is [numpy.around], which multiplies by
    [10 ^ n], rounds to the nearest integer with ties to even, and divides
    by [10 ^ n]. *)
Definition numpy_float64 : float_arith :=
  {| fl := fl64;
     round_to := fun x n =>
       let f := inject_Z (Z.pos (10 ^ n)) in
       fl64 (inject_Z (round_half_even (fl64 (x * f))) / f)%Q |}.

(** What the statements use of the arithmetic: both roundings keep the
    order, and 0, 1 and 100 are returned unchanged. *)
Definition rounding_ok (A : float_arith) : Prop :=
  (forall x y, (x <= y)%Q -> (fl A x <= fl A y)%Q) /\
  (fl A 0 == 0)%Q /\ (fl A 1 == 1)%Q /\ (fl A 100 == 100)%Q /\
  (forall n x y, (x <= y)%Q -> (round_to A x n <= round_to A y n)%Q) /\
  (forall n, round_to A 0 n == 0)%Q /\ (round_to A 100 2 == 100)%Q.

(** Lines 108-128 in floating point: the subtraction is rounded, the
    integer weight is converted to a float, and the product is rounded. *)
Definition symptom_body_fl (A : float_arith)
    (model : classifier) (feature_to_idx : gmap string nat)
    (severity_table : gmap string Z) (baseline_vector : list Z)
    (d_idx : nat) (baseline_prob : Q)
    (disease_scores : gmap string Q) (symptom : pyobj) : result (gmap string Q) :=
  match symptom with
  | PyStr s =>
      match feature_to_idx !! s with
      | None => Ok disease_scores
      | Some s_idx =>
          let temp_vector := <[s_idx := 0%Z]> baseline_vector in
          new_probs ← predict_proba model temp_vector;
          new_prob ← list_getitem new_probs d_idx;
          let prob_drop := max0 (fl A (baseline_prob - new_prob))%Q in
          let weight := severity_get severity_table symptom in
          Ok (<[s := fl A (prob_drop * fl A (inject_Z weight))%Q]> disease_scores)
      end
  | _ => Ok disease_scores
  end.

(** Lines 101-130 in floating point. *)
Definition disease_body_fl (A : float_arith)
    (model : classifier) (selected_symptoms : list pyobj)
    (feature_to_idx : gmap string nat) (disease_to_idx : gmap string nat)
    (severity_table : gmap string Z) (baseline_vector : list Z) (baseline_probs : list Q)
    (raw_impact_results : gmap string (gmap string Q)) (pred : prediction)
  : result (gmap string (gmap string Q)) :=
  let disease := disease pred in
  d_idx ← dict_getitem disease_to_idx disease;
  baseline_prob ← list_getitem baseline_probs d_idx;
  disease_scores ←
    for_each (symptom_body_fl A model feature_to_idx severity_table baseline_vector
                d_idx baseline_prob) ∅ selected_symptoms;
  Ok (<[disease := disease_scores]> raw_impact_results).

(** Lines 84-130 in floating point. *)
Definition raw_impact_fl (A : float_arith)
    (model : classifier) (request_json : gmap string (list pyobj))
    (predictions : list prediction) (feature_columns : list string)
    (severity_table : gmap string Z) : result (gmap string (gmap string Q)) :=
  let selected_symptoms := symptoms_of request_json in
  baseline_vector ← encode_user_symptoms request_json feature_columns severity_table;
  baseline_probs ← predict_proba model baseline_vector;
  let disease_to_idx := index_dict (classes_ model) in
  let feature_to_idx := index_dict feature_columns in
  for_each (disease_body_fl A model selected_symptoms feature_to_idx disease_to_idx
              severity_table baseline_vector baseline_probs) ∅ predictions.

(** Lines 141-145 in floating point: the division and the product with 100
    are rounded, and the comparison with 0 is exact. *)
Definition scale_entry_fl (A : float_arith) (highest : Q) (score : Q) : contribution :=
  {| raw := round_to A score 6;
     scaled := if Qle_bool highest 0 then 0%Q
               else round_to A (fl A (fl A (score / highest) * 100))%Q 2 |}.

(** Lines 132-147 in floating point. *)
Definition scale_contributions_fl (A : float_arith)
    (raw_impact_results : gmap string (gmap string Q))
  : gmap string (gmap string contribution) :=
  let highest := highest_impact raw_impact_results in
  (fun scores : gmap string Q => scale_entry_fl A highest <$> scores)
    <$> raw_impact_results.

Definition calculate_symptom_contributions_fl (A : float_arith) (model : classifier)
    (request_json : gmap string (list pyobj)) (predictions : list prediction)
    (feature_columns : list string) (severity_table : gmap string Z)
  : result (gmap string (gmap string contribution)) :=
  raw_impact_results ←
    raw_impact_fl A model request_json predictions feature_columns severity_table;
  Ok (scale_contributions_fl A raw_impact_results).

(** ** app.py *)

Definition TOP_K_PREDICTIONS : Z := 5.

(** What the [/predict] handler answers: the JSON payload and the status. *)
Inductive response : Type :=
| Response200 (predictions : list prediction)
    (symptom_contributions : gmap string (gmap string contribution))
| Response400 (error : string)
| Response500 (error : string).

(** The [/predict] handler.  [data] is the parsed body, [None] when
    [get_json(silent=True)] finds no JSON; a body is an object whose
    ["symptoms"] entry, when present, is a list (the [isinstance] test of
    line 68 is the typing of [data]). *)
Definition predict (model : classifier) (feature_map : list string)
    (severity_dict : gmap string Z) (data : option (gmap string (list pyobj)))
  : response :=
  match data with
  | None => Response400 "Invalid or missing JSON body"
  | Some data =>
      if decide (data = ∅) then Response400 "Invalid or missing JSON body"
      else
        match symptoms_of data with
        | [] => Response400 "Symptoms must be a non-empty list"
        | _ :: _ =>
            match
              predictions ← predict_top_k_from_json model data feature_map
                              severity_dict TOP_K_PREDICTIONS;
              contributions ← calculate_symptom_contributions model data
                                predictions feature_map severity_dict;
              Ok (predictions, contributions)
            with
            | Ok pc => Response200 pc.1 pc.2
            | Raise _ => Response500 "Prediction failed. Internal Server Error"
            end
        end
  end.

(** The [/symptoms] handler: the keys of the severity table (as a
    collection; the order of the keys is not modelled). *)
Definition get_symptoms (severity_dict : gmap string Z) : list string :=
  (map_to_list severity_dict).*1.

(** ** model.py: the training pipeline *)

(** A cell of the training CSV: text, or a missing value. *)
Inductive cell : Type :=
| Text (s : string)
| NaN.

#[global] Instance cell_eq_dec : EqDecision cell.
Proof. solve_decision. Defined.

(** A row of the raw frame: the [Disease] column, then the symptom
    columns. *)
Record raw_row : Type := {
  raw_disease : cell;
  raw_symptoms : list cell;
}.

(** A row of the cleaned frame: the symptom columns hold strings. *)
Record clean_row : Type := {
  row_disease : cell;
  row_symptoms : list string;
}.

(** [df[df == 'diarrhoea'] = 'diarrhea'] on one cell. *)
Definition fix_diarrhoea (c : cell) : cell :=
  if decide (c = Text "diarrhoea") then Text "diarrhea" else c.

(** [astype(str)] on one cell. *)
Definition astype_str (c : cell) : string :=
  match c with
  | Text s => s
  | NaN => "nan"
  end.

Definition clean_dataset (training_df : list raw_row) : list clean_row :=
  (fun r =>
     {| row_disease := fix_diarrhoea (raw_disease r);
        row_symptoms :=
          (fun c => normalize_symptom (PyStr (astype_str (fix_diarrhoea c))))
            <$> raw_symptoms r |})
    <$> training_df.

(** [extract_all_symptoms]: the set of all symptom cells, without ["nan"]
    and [""], as a sorted list ([sorted] on distinct strings: the ascending
    code-point order). *)
Definition extract_all_symptoms (training_df : list clean_row) : list string :=
  let symptoms : gset string := list_to_set (training_df ≫= row_symptoms) in
  let symptoms := symptoms ∖ {["nan"]} ∖ {[""]} in
  merge_sort String.le (elements symptoms).

(** One row of the matrix filled by [build_feature_matrix] (lines 74-77).
    The column labels are pairwise distinct, as [extract_all_symptoms]
    produces them, so a label is its position. *)
Definition feature_row (symptom_list : list string) (severity_lookup : gmap string Z)
    (symptoms : list string) : list Z :=
  foldl (fun x symptom =>
           match index_dict symptom_list !! symptom with
           | Some i => <[i := default 1%Z (severity_lookup !! symptom)]> x
           | None => x
           end)
        (replicate (length symptom_list) 0%Z) symptoms.

Definition build_feature_matrix (training_df : list clean_row)
    (symptom_list : list string) (severity_lookup : gmap string Z)
  : list (list Z) * list cell :=
  (feature_row symptom_list severity_lookup ∘ row_symptoms <$> training_df,
   row_disease <$> training_df).

(** A [dict] whose iteration order is observed: the items in insertion
    order, with distinct keys.  [dict_set] is [d[k] = v]. *)
Fixpoint dict_set (k : string) (v : Z) (d : list (string * Z)) : list (string * Z) :=
  match d with
  | [] => [(k, v)]
  | (k', v') :: d' =>
      if decide (k = k') then (k, v) :: d' else (k', v') :: dict_set k v d'
  end.

(** [build_severity_dict]: [dict(zip(severity_map['Symptom'],
    severity_map['weight']))], on the two columns. *)
Definition build_severity_dict (symptom : list string) (weight : list Z)
  : list (string * Z) :=
  foldl (fun d kv => dict_set kv.1 kv.2 d) [] (zip symptom weight).

(** Line 143 of [main]:
    [{normalize_symptom(k): v for k, v in severity_dict.items()}]. *)
Definition normalize_keys (severity_dict : list (string * Z)) : list (string * Z) :=
  foldl (fun d kv => dict_set (normalize_symptom (PyStr kv.1)) kv.2 d) [] severity_dict.

(** The table as the serving side reads it after the pickle round trip. *)
Definition table_of (d : list (string * Z)) : gmap string Z := list_to_map d.

(** ** A worked example

    Three features, the severity table of the reference scenario, and a
    two-class classifier given by its answers on the vectors that occur. *)

Definition ex_cols : list string := ["itching"; "skin_rash"; "fatigue"].

Definition ex_sev : gmap string Z :=
  <["itching" := 1%Z]> (<["skin_rash" := 3%Z]> (<["fatigue" := 4%Z]> ∅)).

Definition ex_model : classifier :=
  {| classes_ := ["Flu"; "FungalInfection"];
     predict_proba := fun v =>
       if decide (v = [1; 3; 0]%Z) then Ok [(5 # 100)%Q; (95 # 100)%Q]
       else if decide (v = [0; 3; 0]%Z) then Ok [(10 # 100)%Q; (90 # 100)%Q]
       else if decide (v = [1; 0; 0]%Z) then Ok [(30 # 100)%Q; (70 # 100)%Q]
       else if decide (length v = 3%nat) then Ok [(1 # 2)%Q; (1 # 2)%Q]
       else Raise ValueError |}.

Definition request (symptoms : list pyobj) : gmap string (list pyobj) :=
  {["symptoms" := symptoms]}.

Definition ex_req : gmap string (list pyobj) :=
  request [PyStr "itching"; PyStr "skin_rash"].

Definition ex_pred : prediction :=
  {| disease := "FungalInfection"; probability := (95 # 100)%Q |}.

(** The analysis expected for [ex_req] and [ex_pred]. *)
Definition ex_final : gmap string (gmap string contribution) :=
  {[ "FungalInfection" :=
       <["skin_rash" := {| raw := (3 # 4)%Q; scaled := 100%Q |}]>
         {[ "itching" := {| raw := (1 # 20)%Q; scaled := (667 # 100)%Q |} ]} ]}.

(** The reference scenario in binary64: the classifier's probabilities are
    the floats nearest to the decimals of [ex_model], and the analysis
    expected for [ex_req] and [ex_pred] holds the floats printed as 0.75,
    100.0, 0.05 and 6.67. *)
Definition to_binary64 (model : classifier) : classifier :=
  {| classes_ := classes_ model;
     predict_proba := fun v => p ← predict_proba model v; Ok (map fl64 p) |}.

Definition ex_model64 : classifier := to_binary64 ex_model.

Definition ex_final64 : gmap string (gmap string contribution) :=
  {[ "FungalInfection" :=
       <["skin_rash" := {| raw := fl64 (3 # 4); scaled := fl64 100 |}]>
         {[ "itching" := {| raw := fl64 (1 # 20); scaled := fl64 (667 # 100) |} ]} ]}.

(** The raw scores of that analysis: 0.75 for the rash, and for the itching
    the rounded difference of 0.95 and 0.90. *)
Definition ex_raw64 : gmap string (gmap string Q) :=
  {[ "FungalInfection" :=
       <["skin_rash" := fl64 (3 # 4)]>
         {[ "itching" := fl64 (fl64 (95 # 100) - fl64 (90 # 100)) ]} ]}.

(** A table of raw scores for two diseases. *)
Definition ex_scores : gmap string (gmap string Q) :=
  <["FungalInfection" := <["skin_rash" := (3 # 4)%Q]> {[ "itching" := 0%Q ]}]>
    {[ "Flu" := {[ "itching" := (1 # 4)%Q ]} ]}.

(** ** Auxiliary notions used in the statements *)

(** The request is typed as the serving contract has it: every symptom is
    a string. *)
Definition is_str (x : pyobj) : Prop :=
  match x with
  | PyStr _ => True
  | _ => False
  end.

(** The classifier contract: on a vector of the trained dimension [F] the
    model answers with one probability per class. *)
Definition classifier_ok (model : classifier) (F : nat) : Prop :=
  forall v : list Z, length v = F ->
    exists p, predict_proba model v = Ok p /\ length p = length (classes_ model).

(** Descending order on (class, probability) pairs and on predictions. *)
Definition ge_prob (a b : string * Q) : Prop := (b.2 <= a.2)%Q.

Definition ge_probability (a b : prediction) : Prop :=
  (probability b <= probability a)%Q.

(** [loo_score ... s q]: [q] is the raw score of the leave-one-out
    experiment on symptom [s], for the class at [d_idx] whose baseline
    probability is [baseline_prob]. *)
Definition loo_score (model : classifier) (feature_to_idx : gmap string nat)
    (severity_table : gmap string Z) (baseline_vector : list Z)
    (d_idx : nat) (baseline_prob : Q) (s : string) (q : Q) : Prop :=
  exists s_idx new_probs new_prob,
    feature_to_idx !! s = Some s_idx /\
    predict_proba model (<[s_idx := 0%Z]> baseline_vector) = Ok new_probs /\
    new_probs !! d_idx = Some new_prob /\
    q = (max0 (baseline_prob - new_prob) * inject_Z (default 1%Z (severity_table !! s)))%Q.

(** [disease_row ... d ds]: [ds] is the table of raw scores computed for
    disease [d]. *)
Definition disease_row (model : classifier) (selected_symptoms : list pyobj)
    (feature_to_idx disease_to_idx : gmap string nat) (severity_table : gmap string Z)
    (baseline_vector : list Z) (baseline_probs : list Q)
    (d : string) (ds : gmap string Q) : Prop :=
  exists d_idx baseline_prob,
    disease_to_idx !! d = Some d_idx /\
    baseline_probs !! d_idx = Some baseline_prob /\
    for_each (symptom_body model feature_to_idx severity_table baseline_vector
                d_idx baseline_prob) ∅ selected_symptoms = Ok ds.

(** [loo_score_fl] and [disease_row_fl]: the same for the floating-point
    analysis. *)
Definition loo_score_fl (A : float_arith)
    (model : classifier) (feature_to_idx : gmap string nat)
    (severity_table : gmap string Z) (baseline_vector : list Z)
    (d_idx : nat) (baseline_prob : Q) (s : string) (q : Q) : Prop :=
  exists s_idx new_probs new_prob,
    feature_to_idx !! s = Some s_idx /\
    predict_proba model (<[s_idx := 0%Z]> baseline_vector) = Ok new_probs /\
    new_probs !! d_idx = Some new_prob /\
    q = fl A (max0 (fl A (baseline_prob - new_prob))
              * fl A (inject_Z (default 1%Z (severity_table !! s))))%Q.

Definition disease_row_fl (A : float_arith)
    (model : classifier) (selected_symptoms : list pyobj)
    (feature_to_idx disease_to_idx : gmap string nat) (severity_table : gmap string Z)
    (baseline_vector : list Z) (baseline_probs : list Q)
    (d : string) (ds : gmap string Q) : Prop :=
  exists d_idx baseline_prob,
    disease_to_idx !! d = Some d_idx /\
    baseline_probs !! d_idx = Some baseline_prob /\
    for_each (symptom_body_fl A model feature_to_idx severity_table baseline_vector
                d_idx baseline_prob) ∅ selected_symptoms = Ok ds.

(** [names_dim fi i x]: symptom [x] is a string whose cleaned form is
    mapped to dimension [i]. *)
Definition names_dim (feature_to_idx : gmap string nat) (i : nat) (x : pyobj) : Prop :=
  match x with
  | PyStr s => feature_to_idx !! clean_str s = Some i
  | _ => False
  end.

#[global] Instance names_dim_dec fi i x : Decision (names_dim fi i x).
Proof. destruct x; cbn; apply _. Defined.

#[global] Instance is_str_dec x : Decision (is_str x).
Proof. destruct x; cbn; apply _. Defined.

#[global] Instance Qeq_decision (a b : Q) : Decision (a == b)%Q := Qeq_dec a b.

Module StrFacts.
Import PyStr.

(** What [replace(" ", "_")] does to one character. *)
Definition space_to_underscore (c : ascii) : ascii :=
  if Ascii.eqb " " c then "_"%char else c.

Definition starts_underscore (s : string) : bool :=
  match s with
  | String c _ => Ascii.eqb "_" c
  | EmptyString => false
  end.

(** One left-to-right pass that turns each non-overlapping ["__"] into
    ["_"]: what [replace("__", "_")] computes. *)
Fixpoint collapse (s : string) : string :=
  match s with
  | EmptyString => EmptyString
  | String c r =>
      match r with
      | String c' r' =>
          if Ascii.eqb "_" c && Ascii.eqb "_" c'
          then String "_" (collapse r')
          else String c (collapse r)
      | EmptyString => String c EmptyString
      end
  end.

(** [has_uu s]: two adjacent underscores occur somewhere in [s]. *)
Fixpoint has_uu (s : string) : bool :=
  match s with
  | EmptyString => false
  | String c r => Ascii.eqb "_" c && starts_underscore r || has_uu r
  end.

Fixpoint all_chars (P : ascii -> Prop) (s : string) : Prop :=
  match s with
  | EmptyString => True
  | String c r => P c /\ all_chars P r
  end.

Definition head_ok (s : string) : Prop :=
  match s with
  | EmptyString => True
  | String c _ => isspace c = false
  end.

Fixpoint last_ok (s : string) : Prop :=
  match s with
  | EmptyString => True
  | String c r =>
      match r with
      | EmptyString => isspace c = false
      | String _ _ => last_ok r
      end
  end.

(** A character that [lower] and [replace(" ", "_")] both leave alone. *)
Definition settled (c : ascii) : Prop :=
  lower_char c = c /\ space_to_underscore c = c.

End StrFacts.

(** * Facts about the string primitives *)

Module StrLemmas.
Import PyStr StrFacts.

#[local] Arguments Ascii.eqb : simpl never.

Lemma lower_char_idem c : lower_char (lower_char c) = lower_char c.
Proof. destruct c as [[] [] [] [] [] [] [] []]; reflexivity. Qed.

Lemma isspace_lower_char c : isspace (lower_char c) = isspace c.
Proof. destruct c as [[] [] [] [] [] [] [] []]; reflexivity. Qed.

Lemma lower_char_not_space c : lower_char c = " "%char -> c = " "%char.
Proof. destruct c as [[] [] [] [] [] [] [] []]; vm_compute; congruence. Qed.

Lemma settled_after_maps c : settled (space_to_underscore (lower_char c)).
Proof.
  unfold settled, space_to_underscore.
  destruct (Ascii.eqb " " (lower_char c)) eqn:E.
  - split; reflexivity.
  - rewrite lower_char_idem, E. split; reflexivity.
Qed.

(** *** [replace] at its two call sites *)

Lemma replace_space s : replace s " " "_" = map_chars space_to_underscore s.
Proof.
  unfold replace. induction s as [|c r IH]; [reflexivity|].
  cbn [replace_from startswith map_chars]. unfold space_to_underscore.
  destruct (Ascii.eqb " " c); cbn; now rewrite IH.
Qed.

Lemma replace_from_uu s :
  replace_from "__" "_" 0 s = collapse s /\
  replace_from "__" "_" 1 s = collapse (match s with String _ r => r | _ => "" end).
Proof.
  induction s as [|c r [IH0 IH1]]; [split; reflexivity|].
  split; [|exact IH0].
  cbn [replace_from startswith collapse].
  destruct r as [|c' r'].
  - destruct (Ascii.eqb "_" c); reflexivity.
  - destruct (Ascii.eqb "_" c) eqn:Ec; cbn [andb].
    + destruct (Ascii.eqb "_" c') eqn:Ec'.
      * cbn. f_equal. exact IH1.
      * now rewrite IH0.
    + now rewrite IH0.
Qed.

Lemma replace_uu s : replace s "__" "_" = collapse s.
Proof. apply replace_from_uu. Qed.

(** Induction two characters at a time, the shape of [collapse]. *)
Lemma string_ind2 (P : string -> Prop) :
  P "" -> (forall c, P (String c "")) ->
  (forall c c' r, P r -> P (String c' r) -> P (String c (String c' r))) ->
  forall s, P s.
Proof.
  intros H0 H1 H2 s.
  assert (P s /\ forall c, P (String c s)) as [H _]; [|exact H].
  induction s as [|c r [IHr IHc]]; [split; auto|].
  split; [apply IHc|]. intros c0. apply H2; auto.
Qed.

(** *** [strip] *)

Lemma lstrip_id s : head_ok s -> lstrip s = s.
Proof. destruct s as [|c r]; cbn; [reflexivity|]. now intros ->. Qed.

Lemma rstrip_id s : last_ok s -> rstrip s = s.
Proof.
  induction s as [|c r IH]; [reflexivity|]. cbn [last_ok rstrip].
  destruct r as [|c' r'].
  - cbn. now intros ->.
  - intros H. now rewrite (IH H).
Qed.

Lemma head_ok_lstrip s : head_ok (lstrip s).
Proof.
  induction s as [|c r IH]; cbn; [exact I|].
  destruct (isspace c) eqn:E; [exact IH|exact E].
Qed.

Lemma last_ok_rstrip s : last_ok (rstrip s).
Proof.
  induction s as [|c r IH]; cbn [rstrip]; [exact I|].
  destruct (rstrip r) as [|a b] eqn:E.
  - destruct (isspace c) eqn:Ec; cbn; [exact I|exact Ec].
  - exact IH.
Qed.

Lemma last_ok_tail c r : last_ok (String c r) -> last_ok r.
Proof. destruct r; cbn; [constructor|trivial]. Qed.

Lemma last_ok_lstrip s : last_ok s -> last_ok (lstrip s).
Proof.
  induction s as [|c r IH]; [trivial|]. intros H. cbn [lstrip].
  destruct (isspace c); [|exact H].
  apply IH. eapply last_ok_tail, H.
Qed.

Lemma strip_ok s : head_ok (strip s) /\ last_ok (strip s).
Proof.
  split; [apply head_ok_lstrip|apply last_ok_lstrip, last_ok_rstrip].
Qed.

Lemma strip_id s : head_ok s -> last_ok s -> strip s = s.
Proof. intros Hh Hl. unfold strip. now rewrite (rstrip_id s Hl), lstrip_id. Qed.

(** *** Character maps *)

Section MapChars.
Variable f : ascii -> ascii.
Hypothesis f_keeps_nonspace : forall c, isspace c = false -> isspace (f c) = false.

Lemma head_ok_map s : head_ok s -> head_ok (map_chars f s).
Proof. destruct s; cbn; auto. Qed.

Lemma last_ok_map s : last_ok s -> last_ok (map_chars f s).
Proof.
  induction s as [|c r IH]; [trivial|]. cbn [last_ok map_chars].
  destruct r as [|c' r']; cbn [map_chars]; auto.
Qed.
End MapChars.

Lemma map_chars_id f s : all_chars (fun c => f c = c) s -> map_chars f s = s.
Proof.
  induction s as [|c r IH]; [reflexivity|]. intros [Hc Hr]. cbn.
  now rewrite Hc, (IH Hr).
Qed.

Lemma all_chars_impl (P R : ascii -> Prop) s :
  (forall c, P c -> R c) -> all_chars P s -> all_chars R s.
Proof. intros HPR. induction s as [|c r IH]; cbn; [trivial|]. intros [? ?]; auto. Qed.

Lemma all_chars_settled s :
  all_chars settled (map_chars space_to_underscore (map_chars lower_char s)).
Proof.
  induction s as [|c r IH]; cbn; [exact I|]. split; [apply settled_after_maps|exact IH].
Qed.

Lemma lower_keeps_nonspace c : isspace c = false -> isspace (lower_char c) = false.
Proof. now rewrite isspace_lower_char. Qed.

Lemma underscore_keeps_nonspace c :
  isspace c = false -> isspace (space_to_underscore c) = false.
Proof. unfold space_to_underscore. destruct (Ascii.eqb " " c); auto. Qed.

(** *** [collapse] *)

Lemma collapse_cons2 c c' r :
  collapse (String c (String c' r))
  = if Ascii.eqb "_" c && Ascii.eqb "_" c'
    then String "_" (collapse r) else String c (collapse (String c' r)).
Proof. reflexivity. Qed.

Lemma collapse_head_ok s : head_ok s -> head_ok (collapse s).
Proof.
  destruct s as [|c [|c' r']]; [auto..|]. rewrite collapse_cons2.
  destruct (Ascii.eqb "_" c && Ascii.eqb "_" c'); cbn; auto.
Qed.

Lemma collapse_nonempty c r : collapse (String c r) <> "".
Proof.
  destruct r as [|c' r']; [discriminate|]. rewrite collapse_cons2.
  destruct (Ascii.eqb "_" c && Ascii.eqb "_" c'); discriminate.
Qed.

Lemma last_ok_cons c r : r <> "" -> last_ok (String c r) = last_ok r.
Proof. destruct r; [congruence|reflexivity]. Qed.

Lemma collapse_last_ok s : last_ok s -> last_ok (collapse s).
Proof.
  induction s as [| c | c c' r IHr IHc] using string_ind2; auto.
  intros H. rewrite collapse_cons2.
  destruct (Ascii.eqb "_" c && Ascii.eqb "_" c').
  - destruct r as [|a b]; [reflexivity|].
    rewrite last_ok_cons by apply collapse_nonempty.
    apply IHr. exact H.
  - rewrite last_ok_cons by apply collapse_nonempty.
    apply IHc. exact H.
Qed.

Lemma collapse_all_chars (P : ascii -> Prop) s :
  all_chars P s -> all_chars P (collapse s).
Proof.
  induction s as [| c | c c' r IHr IHc] using string_ind2; auto.
  intros (Hc & Hc' & Hr). rewrite collapse_cons2.
  destruct (Ascii.eqb "_" c) eqn:Ec; cbn [andb].
  - destruct (Ascii.eqb "_" c') eqn:Ec'.
    + apply Ascii.eqb_eq in Ec. subst c. split; auto.
    + split; [assumption|]. apply IHc. split; assumption.
  - split; [assumption|]. apply IHc. split; assumption.
Qed.

Lemma collapse_length s : (String.length (collapse s) <= String.length s)%nat.
Proof.
  induction s as [| c | c c' r IHr IHc] using string_ind2; auto; rewrite collapse_cons2.
  destruct (Ascii.eqb "_" c && Ascii.eqb "_" c'); cbn [String.length] in *; lia.
Qed.

Lemma collapse_shrinks s : has_uu s = true ->
  (String.length (collapse s) < String.length s)%nat.
Proof.
  induction s as [| c | c c' r IHr IHc] using string_ind2.
  - discriminate.
  - cbn. rewrite andb_false_r. discriminate.
  - intros H. rewrite collapse_cons2.
    destruct (Ascii.eqb "_" c && Ascii.eqb "_" c') eqn:E.
    + pose proof (collapse_length r). cbn [String.length]. lia.
    + cbn [has_uu starts_underscore] in H. rewrite E in H. cbn [orb] in H.
      specialize (IHc H). cbn [String.length] in *. lia.
Qed.

Lemma collapse_fixed s : has_uu s = false -> collapse s = s.
Proof.
  induction s as [| c | c c' r IHr IHc] using string_ind2; auto.
  intros H. cbn [has_uu starts_underscore] in H.
  apply orb_false_iff in H as [E H]. rewrite collapse_cons2. rewrite E.
  f_equal. apply IHc. exact H.
Qed.

Lemma collapse_fixed_iff s : collapse s = s <-> has_uu s = false.
Proof.
  split; [|apply collapse_fixed].
  intros H. destruct (has_uu s) eqn:E; [|reflexivity].
  apply collapse_shrinks in E. rewrite H in E. lia.
Qed.

(** [has_uu] decides the occurrence of the substring ["__"]. *)
Lemma has_uu_substring s :
  has_uu s = true <-> exists a b, s = (a ++ "__" ++ b)%string.
Proof.
  split.
  - induction s as [|c r IH]; [discriminate|]. cbn [has_uu].
    intros H. apply orb_true_iff in H as [H|H].
    + apply andb_true_iff in H as [Hc Hr]. apply Ascii.eqb_eq in Hc. subst c.
      destruct r as [|c' r']; [discriminate|]. cbn in Hr.
      apply Ascii.eqb_eq in Hr. subst c'. now exists ""%string, r'.
    + destruct (IH H) as (a & b & ->). now exists (String c a), b.
  - intros (a & b & ->). induction a as [|c a IH]; [reflexivity|].
    change (has_uu (String c (a ++ "__" ++ b)%string) = true).
    cbn [has_uu]. rewrite IH. apply orb_true_r.
Qed.

End StrLemmas.

(** * The normalizer *)

Module Normalizer.
Import PyStr StrFacts StrLemmas.

Lemma clean_str_map s :
  clean_str s = map_chars space_to_underscore (map_chars lower_char (strip s)).
Proof. unfold clean_str. now rewrite replace_space. Qed.

Lemma normalize_collapse s : normalize_symptom (PyStr s) = collapse (clean_str s).
Proof. unfold normalize_symptom. now rewrite replace_uu. Qed.

Lemma clean_str_shape s :
  head_ok (clean_str s) /\ last_ok (clean_str s) /\ all_chars settled (clean_str s).
Proof.
  rewrite clean_str_map. destruct (strip_ok s) as [Hh Hl]. repeat split.
  - apply head_ok_map, head_ok_map; auto using underscore_keeps_nonspace, lower_keeps_nonspace.
  - apply last_ok_map, last_ok_map; auto using underscore_keeps_nonspace, lower_keeps_nonspace.
  - apply all_chars_settled.
Qed.

(** A string of the normalizer's shape is left alone by the cleaning. *)
Lemma clean_str_id t :
  head_ok t -> last_ok t -> all_chars settled t -> clean_str t = t.
Proof.
  intros Hh Hl Hs. rewrite clean_str_map, strip_id by assumption.
  rewrite (map_chars_id lower_char).
  - apply map_chars_id. eapply all_chars_impl, Hs. now intros c [_ ?].
  - eapply all_chars_impl, Hs. now intros c [? _].
Qed.

Lemma clean_str_normalize s :
  clean_str (normalize_symptom (PyStr s)) = normalize_symptom (PyStr s).
Proof.
  rewrite normalize_collapse. destruct (clean_str_shape s) as (Hh & Hl & Hs).
  apply clean_str_id;
    auto using collapse_head_ok, collapse_last_ok, collapse_all_chars.
Qed.

(** A second normalization is one more collapsing pass, nothing else. *)
Lemma normalize_twice s :
  normalize_symptom (PyStr (normalize_symptom (PyStr s)))
  = collapse (normalize_symptom (PyStr s)).
Proof. now rewrite (normalize_collapse (normalize_symptom _)), clean_str_normalize. Qed.

End Normalizer.

(** * Loops and index dictionaries *)

Local Open Scope list_scope.

Module Loops.

Lemma for_each_app {A S : Type} (body : S -> A -> result S) acc l1 l2 :
  for_each body acc (l1 ++ l2) = (acc' ← for_each body acc l1; for_each body acc' l2).
Proof.
  revert acc. induction l1 as [|x l1 IH]; intros acc; [reflexivity|].
  cbn. destruct (body acc x) as [acc'|e]; cbn; [apply IH|reflexivity].
Qed.

(** An item on which the body does nothing can be left out. *)
Lemma for_each_skip {A S : Type} (body : S -> A -> result S) acc l1 x l2 :
  (forall a, body a x = Ok a) ->
  for_each body acc (l1 ++ x :: l2) = for_each body acc (l1 ++ l2).
Proof.
  intros Hx. rewrite !for_each_app.
  destruct (for_each body acc l1) as [acc'|e]; cbn; [|reflexivity].
  now rewrite Hx.
Qed.

(** The last item with a decidable property splits the list. *)
Lemma last_split {A : Type} (P : A -> Prop) `{forall x, Decision (P x)} (l : list A) :
  Exists P l ->
  exists l1 x l2, l = l1 ++ x :: l2 /\ P x /\ Forall (fun y => ~ P y) l2.
Proof.
  induction l as [|a l IH]; intros HE; [inversion HE|].
  destruct (decide (Exists P l)) as [Hl|Hl].
  - destruct (IH Hl) as (l1 & x & l2 & -> & Hx & Hl2).
    exists (a :: l1), x, l2. auto.
  - exists [], a, l. inversion HE; subst; [|contradiction].
    repeat split; [assumption|]. now apply not_Exists_Forall.
Qed.

Lemma index_dict_snoc names x :
  index_dict (names ++ [x]) = <[x := length names]> (index_dict names).
Proof.
  unfold index_dict. rewrite imap_app, foldl_app. cbn.
  now rewrite Nat.add_0_r.
Qed.

Lemma lookup_snoc_ne (names : list string) x name j :
  x <> name -> (names ++ [x]) !! j = Some name <-> names !! j = Some name.
Proof.
  intros Hne. split; intros H.
  - apply lookup_app_Some in H as [H|[Hlen H]]; [exact H|].
    destruct (j - length names)%nat; cbn in H; [congruence|discriminate].
  - now apply lookup_app_l_Some.
Qed.

(** The dictionary maps a name to the last position at which it occurs. *)
Lemma index_dict_Some names name i :
  index_dict names !! name = Some i <->
  names !! i = Some name /\ forall j, names !! j = Some name -> (j <= i)%nat.
Proof.
  revert i. induction names as [|x names IH] using rev_ind; intros i.
  - unfold index_dict. cbn. rewrite lookup_empty. split; [discriminate|].
    intros [H _]. discriminate H.
  - rewrite index_dict_snoc. destruct (decide (x = name)) as [->|Hne].
    + rewrite lookup_insert_eq. split.
      * intros [= <-]. split; [now rewrite list_lookup_middle|].
        intros j Hj. apply lookup_lt_Some in Hj. rewrite length_app in Hj.
        cbn in Hj. lia.
      * intros [Hi Hmax]. f_equal.
        pose proof (lookup_lt_Some _ _ _ Hi) as Hlt. rewrite length_app in Hlt.
        cbn in Hlt. specialize (Hmax (length names)).
        rewrite list_lookup_middle in Hmax by reflexivity.
        specialize (Hmax eq_refl). lia.
    + rewrite lookup_insert_ne by assumption. rewrite IH.
      rewrite lookup_snoc_ne by assumption.
      split; intros [Hi Hmax]; (split; [assumption|]); intros j Hj; apply Hmax.
      * now apply (lookup_snoc_ne names x name j Hne).
      * now apply lookup_snoc_ne.
Qed.

Lemma index_dict_None names name :
  index_dict names !! name = None <-> name ∉ names.
Proof.
  induction names as [|x names IH] using rev_ind.
  - unfold index_dict. cbn. rewrite lookup_empty. split; [|reflexivity].
    intros _. apply not_elem_of_nil.
  - rewrite index_dict_snoc, lookup_insert_None, IH.
    rewrite not_elem_of_app, not_elem_of_cons. split.
    + intros [? ?]. repeat split; [assumption|congruence|apply not_elem_of_nil].
    + intros (? & ? & _). split; [assumption|congruence].
Qed.

Lemma index_dict_lookup names name i :
  index_dict names !! name = Some i -> names !! i = Some name.
Proof. intros H. now apply index_dict_Some in H. Qed.

Lemma index_dict_lt names name i :
  index_dict names !! name = Some i -> (i < length names)%nat.
Proof. intros H. eapply lookup_lt_Some, index_dict_lookup, H. Qed.

Lemma index_dict_elem names name :
  name ∈ names -> is_Some (index_dict names !! name).
Proof.
  intros H. destruct (index_dict names !! name) eqn:E; [eauto|].
  now apply index_dict_None in E.
Qed.

(** When the names are pairwise distinct, it is the position itself. *)
Lemma index_dict_NoDup names name i :
  NoDup names -> names !! i = Some name -> index_dict names !! name = Some i.
Proof.
  intros Hnd Hi. apply index_dict_Some. split; [assumption|].
  intros j Hj. now rewrite (NoDup_lookup _ _ _ _ Hnd Hj Hi).
Qed.

End Loops.

(** * The feature encoder *)

Module Encoder.
Import Loops.

#[local] Arguments encode_body : simpl never.

Lemma is_str_inv x : is_str x -> exists s, x = PyStr s.
Proof. destruct x; cbn; [eauto|contradiction..]. Qed.

Section Body.
Variables (fi : gmap string nat) (sev : gmap string Z).

Lemma encode_body_unknown v s :
  fi !! clean_str s = None -> encode_body fi sev v (PyStr s) = Ok v.
Proof. intros H. unfold encode_body. cbn. now rewrite H. Qed.

Lemma encode_body_known v s i :
  fi !! clean_str s = Some i ->
  encode_body fi sev v (PyStr s) = Ok (<[i := default 1%Z (sev !! s)]> v).
Proof. intros H. unfold encode_body. cbn. now rewrite H. Qed.

(** One step either leaves the vector alone or writes one cell. *)
Lemma encode_body_cases v x v' :
  encode_body fi sev v x = Ok v' ->
  exists s, x = PyStr s /\
    (fi !! clean_str s = None /\ v' = v \/
     exists i, fi !! clean_str s = Some i /\ v' = <[i := default 1%Z (sev !! s)]> v).
Proof.
  destruct x as [s| |]; [|discriminate..]. unfold encode_body. cbn.
  destruct (fi !! clean_str s) as [i|] eqn:E; intros [= <-]; eauto 6.
Qed.

Lemma encode_loop_ok v l :
  Forall is_str l -> exists v', for_each (encode_body fi sev) v l = Ok v'.
Proof.
  intros Hl. revert v. induction Hl as [|x l Hx _ IH]; intros v; [cbn; eauto|].
  apply is_str_inv in Hx as [s ->]. cbn [for_each].
  destruct (fi !! clean_str s) as [i|] eqn:E.
  - rewrite (encode_body_known _ _ _ E). apply IH.
  - rewrite (encode_body_unknown _ _ E). apply IH.
Qed.

Lemma encode_loop_length v l v' :
  for_each (encode_body fi sev) v l = Ok v' -> length v' = length v.
Proof.
  revert v. induction l as [|x l IH]; intros v; cbn [for_each].
  - now intros [= <-].
  - destruct (encode_body fi sev v x) as [v1|e] eqn:E; [|discriminate]. cbn.
    intros H. rewrite (IH _ H).
    apply encode_body_cases in E as (s & _ & [[_ ->]|(i & _ & ->)]);
      [reflexivity|apply length_insert].
Qed.

(** A cell that no symptom names keeps its value. *)
Lemma encode_loop_untouched v l v' i :
  for_each (encode_body fi sev) v l = Ok v' ->
  Forall (fun x => ~ names_dim fi i x) l -> v' !! i = v !! i.
Proof.
  revert v. induction l as [|x l IH]; intros v; cbn [for_each].
  - now intros [= <-].
  - destruct (encode_body fi sev v x) as [v1|e] eqn:E; [|discriminate]. cbn.
    intros H Hall. apply Forall_cons in Hall as [Hx Hall].
    rewrite (IH _ H Hall).
    apply encode_body_cases in E as (s & -> & [[_ ->]|(j & Hj & ->)]);
      [reflexivity|].
    apply list_lookup_insert_ne. intros ->. now apply Hx.
Qed.

(** The last symptom that names a cell decides its value. *)
Lemma encode_loop_last v l1 s l2 v' i :
  for_each (encode_body fi sev) v (l1 ++ PyStr s :: l2) = Ok v' ->
  fi !! clean_str s = Some i -> (i < length v)%nat ->
  Forall (fun x => ~ names_dim fi i x) l2 ->
  v' !! i = Some (default 1%Z (sev !! s)).
Proof.
  intros H Hi Hlt Hl2. rewrite for_each_app in H.
  destruct (for_each (encode_body fi sev) v l1) as [v1|e] eqn:E1; [|discriminate].
  cbn in H. rewrite (encode_body_known _ _ _ Hi) in H. cbn in H.
  rewrite (encode_loop_untouched _ _ _ _ H Hl2).
  apply list_lookup_insert_eq. now rewrite (encode_loop_length _ _ _ E1).
Qed.

(** Two vectors that differ in one cell at most end up equal once a later
    symptom writes that cell. *)
Lemma encode_loop_overwritten (v w : list Z) l i :
  length v = length w -> (forall j, j <> i -> v !! j = w !! j) ->
  Exists (names_dim fi i) l ->
  for_each (encode_body fi sev) v l = for_each (encode_body fi sev) w l.
Proof.
  revert v w. induction l as [|x l IH]; intros v w Hlen Hag HE; [inversion HE|].
  cbn [for_each]. destruct x as [s| |]; [|reflexivity..].
  destruct (fi !! clean_str s) as [j|] eqn:E.
  - rewrite !(encode_body_known _ _ _ E). cbn.
    destruct (decide (j = i)) as [->|Hne].
    + f_equal. apply list_eq. intros k. rewrite !list_lookup_insert, Hlen.
      case_decide as Hk; [reflexivity|].
      destruct (decide (k = i)) as [->|Hki]; [|now apply Hag].
      rewrite !lookup_ge_None_2; [reflexivity|lia..].
    + apply IH.
      * now rewrite !length_insert.
      * intros k Hk. rewrite !list_lookup_insert, Hlen.
        case_decide; [reflexivity|]. now apply Hag.
      * inversion HE as [? ? Hx|]; subst; [|assumption].
        cbn in Hx. congruence.
  - rewrite !(encode_body_unknown _ _ E). cbn. apply IH; [assumption..|].
    inversion HE as [? ? Hx|]; subst; [|assumption]. cbn in Hx. congruence.
Qed.

End Body.

Lemma symptoms_of_request l : symptoms_of (request l) = l.
Proof. unfold symptoms_of, request. now rewrite lookup_singleton_eq. Qed.

Lemma names_dim_clean cols i x s :
  names_dim (index_dict cols) i x ->
  index_dict cols !! clean_str s = Some i ->
  exists s', x = PyStr s' /\ clean_str s' = clean_str s.
Proof.
  destruct x as [s'| |]; cbn; [|contradiction..]. intros H1 H2.
  exists s'. split; [reflexivity|].
  apply index_dict_lookup in H1, H2. congruence.
Qed.

(** Among the symptoms that clean to a column name there is a last one. *)
Lemma last_naming cols i s (l : list pyobj) :
  PyStr s ∈ l -> index_dict cols !! clean_str s = Some i ->
  exists l1 s' l2,
    l = l1 ++ PyStr s' :: l2 /\ clean_str s' = clean_str s /\
    forall s'', PyStr s'' ∈ l2 -> clean_str s'' <> clean_str s.
Proof.
  intros Hin Hi.
  destruct (last_split (names_dim (index_dict cols) i) l)
    as (l1 & x & l2 & Hsplit & Hx & Hl2).
  { apply Exists_exists. exists (PyStr s). split; [exact Hin|exact Hi]. }
  destruct (names_dim_clean _ _ _ _ Hx Hi) as (s' & -> & Hc).
  exists l1, s', l2. repeat split; [assumption..|].
  intros s'' Hin'' Heq. rewrite Forall_forall in Hl2.
  apply (Hl2 (PyStr s'') Hin''). cbn. now rewrite Heq.
Qed.

(** The cell of a cleaned name holds the weight of the last symptom that
    cleans to it. *)
Lemma encode_at_last req cols sev l1 s l2 i v :
  encode_user_symptoms req cols sev = Ok v ->
  symptoms_of req = l1 ++ PyStr s :: l2 ->
  index_dict cols !! clean_str s = Some i ->
  (forall s', PyStr s' ∈ l2 -> clean_str s' <> clean_str s) ->
  v !! i = Some (default 1%Z (sev !! s)).
Proof.
  unfold encode_user_symptoms. intros H Hs Hi Hlast. rewrite Hs in H.
  eapply encode_loop_last; [exact H|exact Hi| |].
  - rewrite length_replicate. eapply index_dict_lt, Hi.
  - apply Forall_forall. intros x Hx Hn.
    destruct (names_dim_clean _ _ _ _ Hn Hi) as (s' & -> & Hc).
    now apply (Hlast s').
Qed.

(** A cell whose column no symptom cleans to stays 0. *)
Lemma encode_zero_unnamed req cols sev i v :
  encode_user_symptoms req cols sev = Ok v -> (i < length cols)%nat ->
  (forall s, PyStr s ∈ symptoms_of req -> cols !! i <> Some (clean_str s)) ->
  v !! i = Some 0%Z.
Proof.
  unfold encode_user_symptoms. intros H Hlt Hno.
  rewrite (encode_loop_untouched _ _ _ _ _ _ H).
  - now apply lookup_replicate_2.
  - apply Forall_forall. intros [s| |] Hx Hn; cbn in Hn; [|contradiction..].
    apply (Hno s Hx). symmetry. now apply index_dict_lookup in Hn.
Qed.

Lemma encode_ok req cols sev :
  Forall is_str (symptoms_of req) ->
  exists v, encode_user_symptoms req cols sev = Ok v /\ length v = length cols.
Proof.
  intros H. unfold encode_user_symptoms.
  destruct (encode_loop_ok (index_dict cols) sev (replicate (length cols) 0%Z) _ H)
    as [v Hv].
  exists v. split; [assumption|].
  rewrite (encode_loop_length _ _ _ _ _ Hv). apply length_replicate.
Qed.

Lemma encode_length req cols sev v :
  encode_user_symptoms req cols sev = Ok v -> length v = length cols.
Proof.
  intros H. rewrite (encode_loop_length _ _ _ _ _ H). apply length_replicate.
Qed.

End Encoder.

(** * Rounding and ranking *)

Module Numeric.
Local Open Scope Q_scope.

Lemma round_half_even_bounds y :
  (Qfloor y <= round_half_even y <= Qfloor y + 1)%Z.
Proof.
  unfold round_half_even.
  destruct (y - inject_Z (Qfloor y) ?= 1 # 2); [destruct (Z.even _)|..]; lia.
Qed.

Lemma round_half_even_mono x y :
  x <= y -> (round_half_even x <= round_half_even y)%Z.
Proof.
  intros Hxy. pose proof (Qfloor_resp_le _ _ Hxy) as Hf.
  destruct (Z.eq_dec (Qfloor x) (Qfloor y)) as [E|NE].
  - unfold round_half_even. rewrite <- E.
    destruct (Qcompare_spec (x - inject_Z (Qfloor x)) (1 # 2)) as [Hx|Hx|Hx],
             (Qcompare_spec (y - inject_Z (Qfloor x)) (1 # 2)) as [Hy|Hy|Hy];
      try lia; try lra; destruct (Z.even (Qfloor x)); lia.
  - pose proof (round_half_even_bounds x). pose proof (round_half_even_bounds y). lia.
Qed.

Lemma round_half_even_nonneg y : 0 <= y -> (0 <= round_half_even y)%Z.
Proof.
  intros H. apply Qfloor_resp_le in H. change (Qfloor 0) with 0%Z in H.
  pose proof (round_half_even_bounds y). lia.
Qed.

Lemma Qmake_le a b d : (a <= b)%Z -> a # d <= b # d.
Proof. intros H. unfold Qle. cbn. nia. Qed.

Lemma Qmake_nonneg a d : (0 <= a)%Z -> 0 <= a # d.
Proof. intros H. unfold Qle. cbn. lia. Qed.

Lemma scale_pos d : 0 < inject_Z (Z.pos d).
Proof. unfold Qlt. cbn. lia. Qed.

(** Rounding never reverses an order. *)
Lemma py_round_mono x y n : x <= y -> py_round x n <= py_round y n.
Proof.
  intros H. unfold py_round. rewrite !Qred_correct.
  apply Qmake_le, round_half_even_mono.
  apply Qmult_le_compat_r; [assumption|]. apply Qlt_le_weak, scale_pos.
Qed.

Lemma py_round_nonneg x n : 0 <= x -> 0 <= py_round x n.
Proof.
  intros H. unfold py_round. rewrite Qred_correct.
  apply Qmake_nonneg, round_half_even_nonneg.
  apply Qmult_le_0_compat; [assumption|]. apply Qlt_le_weak, scale_pos.
Qed.

Lemma py_round_compat x y n : x == y -> py_round x n == py_round y n.
Proof.
  intros H. apply Qle_antisym; apply py_round_mono; rewrite H; apply Qle_refl.
Qed.

Lemma py_round_100 : py_round 100 2 == 100.
Proof. vm_compute. reflexivity. Qed.

Lemma py_round_le_100 x : x <= 100 -> py_round x 2 <= 100.
Proof. intros H. rewrite <- py_round_100. now apply py_round_mono. Qed.

Lemma max0_nonneg x : 0 <= max0 x.
Proof.
  unfold max0. destruct (Qle_bool x 0) eqn:E; [apply Qle_refl|].
  apply Qnot_lt_le. intros Hlt. apply Qlt_le_weak, Qle_bool_iff in Hlt. congruence.
Qed.




(** *** The largest item *)

Lemma py_max_ge x l : x <= py_max x l /\ Forall (fun y => y <= py_max x l) l.
Proof.
  unfold py_max. revert x. induction l as [|y l IH]; intros x; cbn.
  - split; [apply Qle_refl|constructor].
  - destruct (Qle_bool y x) eqn:E.
    + apply Qle_bool_iff in E. destruct (IH x) as [Hx Hl].
      split; [assumption|]. constructor; [lra|assumption].
    + assert (x < y) as Hlt.
      { apply Qnot_le_lt. intros H. apply Qle_bool_iff in H. congruence. }
      destruct (IH y) as [Hy Hl]. split; [lra|]. constructor; assumption.
Qed.

Lemma py_max_elem x l : py_max x l ∈ x :: l.
Proof.
  unfold py_max. revert x. induction l as [|y l IH]; intros x; cbn.
  - apply elem_of_cons. now left.
  - destruct (Qle_bool y x).
    + specialize (IH x). rewrite !elem_of_cons in *. tauto.
    + apply elem_of_cons. right. apply IH.
Qed.

(** *** The stable descending sort *)

Lemma insert_desc_perm x l : insert_desc x l ≡ₚ x :: l.
Proof.
  induction l as [|y l IH]; cbn; [reflexivity|].
  destruct (Qle_bool y.2 x.2); [reflexivity|].
  rewrite IH. apply Permutation_swap.
Qed.

Lemma sorted_desc_perm l : sorted_desc l ≡ₚ l.
Proof.
  induction l as [|x l IH]; cbn; [reflexivity|].
  now rewrite insert_desc_perm, IH.
Qed.

Lemma insert_desc_sorted x l :
  StronglySorted ge_prob l -> StronglySorted ge_prob (insert_desc x l).
Proof.
  induction l as [|y l IH]; cbn; intros Hs.
  - repeat constructor.
  - inversion Hs as [|? ? Hl Hy]; subst.
    destruct (Qle_bool y.2 x.2) eqn:E.
    + apply Qle_bool_iff in E. constructor; [assumption|].
      constructor; [exact E|].
      eapply Forall_impl; [exact Hy|]. unfold ge_prob. intros z Hz. cbn in *. lra.
    + assert (x.2 < y.2) as Hlt.
      { apply Qnot_le_lt. intros H. apply Qle_bool_iff in H. congruence. }
      constructor; [now apply IH|].
      rewrite insert_desc_perm. constructor; [|assumption].
      unfold ge_prob. lra.
Qed.

Lemma sorted_desc_sorted l : StronglySorted ge_prob (sorted_desc l).
Proof.
  induction l as [|x l IH]; cbn; [constructor|now apply insert_desc_sorted].
Qed.

Lemma StronglySorted_take {A} (R : relation A) n l :
  StronglySorted R l -> StronglySorted R (take n l).
Proof.
  intros Hs. revert n. induction Hs as [|x l Hl IH Hx]; intros [|n]; cbn;
    try constructor; [apply IH|now apply Forall_take].
Qed.

(** *** The slice *)

Lemma slice_to_nonneg {A} (l : list A) k :
  (0 <= k)%Z -> slice_to l k = take (Z.to_nat k) l.
Proof. intros H. unfold slice_to. apply Z.leb_le in H. now rewrite H. Qed.

Lemma slice_to_neg {A} (l : list A) k :
  (k < 0)%Z -> slice_to l k = take (length l - Z.to_nat (- k)) l.
Proof. intros H. unfold slice_to. apply Z.leb_gt in H. now rewrite H. Qed.

Lemma slice_to_all {A} (l : list A) k :
  (Z.of_nat (length l) <= k)%Z -> slice_to l k = l.
Proof.
  intros H. rewrite slice_to_nonneg by lia. apply take_ge. lia.
Qed.

Lemma slice_to_length {A} (l : list A) k :
  length (slice_to l k) =
  if (0 <=? k)%Z then Nat.min (Z.to_nat k) (length l)
  else (length l - Z.to_nat (- k))%nat.
Proof.
  unfold slice_to. destruct (0 <=? k)%Z; rewrite length_take; lia.
Qed.

Lemma slice_to_sorted {A} (R : relation A) (l : list A) k :
  StronglySorted R l -> StronglySorted R (slice_to l k).
Proof. intros H. unfold slice_to. destruct (0 <=? k)%Z; now apply StronglySorted_take. Qed.

Lemma slice_to_elem {A} (l : list A) k x : x ∈ slice_to l k -> x ∈ l.
Proof.
  unfold slice_to. destruct (0 <=? k)%Z; intros H;
    apply elem_of_take in H as (i & Hi & _); eapply list_elem_of_lookup_2, Hi.
Qed.

End Numeric.

(** * The contribution analyzer *)

Module Analyzer.
Import Loops Encoder Numeric.

#[local] Arguments symptom_body : simpl never.
#[local] Arguments disease_body : simpl never.

Section Inner.
Variables (model : classifier) (fi : gmap string nat) (sev : gmap string Z)
          (bv : list Z) (d_idx : nat) (bp : Q).
#[local] Abbreviation body := (symptom_body model fi sev bv d_idx bp).
#[local] Abbreviation score := (loo_score model fi sev bv d_idx bp).

Lemma symptom_body_cases m x m' :
  body m x = Ok m' ->
  (m' = m /\ forall s, x = PyStr s -> fi !! s = None) \/
  (exists s q, x = PyStr s /\ score s q /\ m' = <[s := q]> m).
Proof.
  unfold symptom_body. destruct x as [s| |].
  - destruct (fi !! s) as [s_idx|] eqn:E.
    + destruct (predict_proba model (<[s_idx:=0%Z]> bv)) as [np|e] eqn:Ep;
        [|discriminate]. cbn. unfold list_getitem.
      destruct (np !! d_idx) as [p|] eqn:Ed; [|discriminate]. cbn.
      intros [= <-]. right. eexists s, _. split; [reflexivity|].
      split; [|reflexivity]. exists s_idx, np, p. auto.
    + intros [= <-]. left. split; [reflexivity|]. now intros ? [= <-].
  - intros [= <-]. left. split; [reflexivity|]. discriminate.
  - intros [= <-]. left. split; [reflexivity|]. discriminate.
Qed.

Lemma score_functional s q q' : score s q -> score s q' -> q = q'.
Proof.
  intros (i & np & p & Hi & Hnp & Hp & ->) (i' & np' & p' & Hi' & Hnp' & Hp' & ->).
  congruence.
Qed.

(** Every score in the table was computed by an experiment. *)
Lemma symptom_loop_inv m0 l m :
  for_each body m0 l = Ok m ->
  forall s q, m !! s = Some q ->
    m0 !! s = Some q \/ (PyStr s ∈ l /\ score s q).
Proof.
  revert m0. induction l as [|x l IH]; intros m0; cbn [for_each].
  - intros [= <-]. auto.
  - destruct (body m0 x) as [m1|e] eqn:E; [|discriminate]. cbn.
    intros H s q Hs. destruct (IH _ H _ _ Hs) as [H1|[Hin Hsc]].
    + apply symptom_body_cases in E as [[-> _]|(s' & q' & -> & Hsc & ->)];
        [auto|].
      destruct (decide (s' = s)) as [->|Hne].
      * rewrite lookup_insert_eq in H1. injection H1 as <-.
        right. split; [apply elem_of_cons; now left|assumption].
      * rewrite lookup_insert_ne in H1 by assumption. auto.
    + right. split; [apply elem_of_cons; now right|assumption].
Qed.

Lemma symptom_loop_keeps m0 l m s :
  for_each body m0 l = Ok m -> is_Some (m0 !! s) -> is_Some (m !! s).
Proof.
  revert m0. induction l as [|x l IH]; intros m0; cbn [for_each].
  - now intros [= <-].
  - destruct (body m0 x) as [m1|e] eqn:E; [|discriminate]. cbn.
    intros H Hs. apply (IH _ H).
    apply symptom_body_cases in E as [[-> _]|(s' & q' & _ & _ & ->)];
      [assumption|].
    rewrite lookup_insert_is_Some. destruct (decide (s' = s)); auto.
Qed.

(** Every selected symptom that is itself a column gets a score. *)
Lemma symptom_loop_covers m0 l m s :
  for_each body m0 l = Ok m -> PyStr s ∈ l -> is_Some (fi !! s) ->
  is_Some (m !! s).
Proof.
  revert m0. induction l as [|x l IH]; intros m0; cbn [for_each].
  - intros _ H. now apply elem_of_nil in H.
  - destruct (body m0 x) as [m1|e] eqn:E; [|discriminate]. cbn.
    intros H Hin Hfi. apply elem_of_cons in Hin as [<-|Hin]; [|eauto].
    apply (symptom_loop_keeps _ _ _ _ H).
    apply symptom_body_cases in E as [[_ Hn]|(s' & q' & [= <-] & _ & ->)].
    + rewrite (Hn s eq_refl) in Hfi. now destruct Hfi.
    + rewrite lookup_insert_eq. eauto.
Qed.

Lemma symptom_loop_dom l m s :
  for_each body ∅ l = Ok m ->
  is_Some (m !! s) <-> PyStr s ∈ l /\ is_Some (fi !! s).
Proof.
  intros H. split.
  - intros [q Hq]. destruct (symptom_loop_inv _ _ _ H _ _ Hq) as [H0|[Hin Hsc]].
    + now rewrite lookup_empty in H0.
    + split; [assumption|]. destruct Hsc as (i & _ & _ & Hi & _). eauto.
  - intros [Hin Hfi]. eapply symptom_loop_covers; eauto.
Qed.

(** The loop runs to completion when the classifier answers every
    perturbed vector with a probability at position [d_idx]. *)
Lemma symptom_loop_ok m0 l :
  (forall s_idx, (s_idx < length bv)%nat ->
     exists p, predict_proba model (<[s_idx := 0%Z]> bv) = Ok p /\ is_Some (p !! d_idx)) ->
  (forall s s_idx, fi !! s = Some s_idx -> (s_idx < length bv)%nat) ->
  exists m, for_each body m0 l = Ok m.
Proof.
  intros Hp Hfi. revert m0. induction l as [|x l IH]; intros m0; cbn [for_each].
  - eauto.
  - assert (exists m1, body m0 x = Ok m1) as [m1 ->]; [|cbn; apply IH].
    unfold symptom_body. destruct x as [s| |]; [|eauto..].
    destruct (fi !! s) as [s_idx|] eqn:E; [|eauto].
    destruct (Hp s_idx (Hfi _ _ E)) as (p & -> & [q Hq]). cbn.
    unfold list_getitem. rewrite Hq. cbn. eauto.
Qed.

End Inner.

Section Outer.
Variables (model : classifier) (symptoms : list pyobj)
          (fi di : gmap string nat) (sev : gmap string Z)
          (bv : list Z) (bprobs : list Q).
#[local] Abbreviation body := (disease_body model symptoms fi di sev bv bprobs).
#[local] Abbreviation row := (disease_row model symptoms fi di sev bv bprobs).

Lemma disease_body_cases R pred R' :
  body R pred = Ok R' ->
  exists ds, row (disease pred) ds /\ R' = <[disease pred := ds]> R.
Proof.
  unfold disease_body, dict_getitem, list_getitem.
  destruct (di !! disease pred) as [d_idx|] eqn:Ed; [|discriminate]. cbn.
  destruct (bprobs !! d_idx) as [bp|] eqn:Eb; [|discriminate]. cbn.
  destruct (for_each _ ∅ symptoms) as [ds|e] eqn:El; [|discriminate]. cbn.
  intros [= <-]. exists ds. split; [|reflexivity]. exists d_idx, bp. auto.
Qed.

Lemma row_functional d ds ds' : row d ds -> row d ds' -> ds = ds'.
Proof.
  intros (i & p & Hi & Hp & H) (i' & p' & Hi' & Hp' & H'). congruence.
Qed.

Lemma disease_loop_inv R0 preds R :
  for_each body R0 preds = Ok R ->
  forall d ds, R !! d = Some ds ->
    R0 !! d = Some ds \/ ((exists pred, pred ∈ preds /\ disease pred = d) /\ row d ds).
Proof.
  revert R0. induction preds as [|x l IH]; intros R0; cbn [for_each].
  - intros [= <-]. auto.
  - destruct (body R0 x) as [R1|e] eqn:E; [|discriminate]. cbn.
    intros H d ds Hd. destruct (IH _ H _ _ Hd) as [H1|[(pred & Hin & Hp) Hrow]].
    + apply disease_body_cases in E as (ds' & Hrow & ->).
      destruct (decide (disease x = d)) as [<-|Hne].
      * rewrite lookup_insert_eq in H1. injection H1 as <-.
        right. split; [|assumption]. exists x. split; [|reflexivity].
        apply elem_of_cons. now left.
      * rewrite lookup_insert_ne in H1 by assumption. auto.
    + right. split; [|assumption]. exists pred. split; [|assumption].
      apply elem_of_cons. now right.
Qed.

Lemma disease_loop_keeps R0 preds R d :
  for_each body R0 preds = Ok R -> is_Some (R0 !! d) -> is_Some (R !! d).
Proof.
  revert R0. induction preds as [|x l IH]; intros R0; cbn [for_each].
  - now intros [= <-].
  - destruct (body R0 x) as [R1|e] eqn:E; [|discriminate]. cbn.
    intros H Hs. apply (IH _ H).
    apply disease_body_cases in E as (ds' & _ & ->).
    rewrite lookup_insert_is_Some. destruct (decide (disease x = d)); auto.
Qed.

Lemma disease_loop_covers R0 preds R pred :
  for_each body R0 preds = Ok R -> pred ∈ preds -> is_Some (R !! disease pred).
Proof.
  revert R0. induction preds as [|x l IH]; intros R0; cbn [for_each].
  - intros _ H. now apply elem_of_nil in H.
  - destruct (body R0 x) as [R1|e] eqn:E; [|discriminate]. cbn.
    intros H Hin. apply elem_of_cons in Hin as [->|Hin]; [|eauto].
    apply (disease_loop_keeps _ _ _ _ H).
    apply disease_body_cases in E as (ds' & _ & ->).
    rewrite lookup_insert_eq. eauto.
Qed.

Lemma disease_loop_ok R0 preds :
  (forall pred, pred ∈ preds -> exists ds, row (disease pred) ds) ->
  exists R, for_each body R0 preds = Ok R.
Proof.
  revert R0. induction preds as [|x l IH]; intros R0 Hrow; cbn [for_each].
  - eauto.
  - destruct (Hrow x) as (ds & d_idx & bp & Hd & Hb & Hl);
      [apply elem_of_cons; now left|].
    assert (body R0 x = Ok (<[disease x := ds]> R0)) as ->.
    { unfold disease_body, dict_getitem, list_getitem.
      rewrite Hd. cbn. rewrite Hb. cbn. now rewrite Hl. }
    cbn. apply IH. intros pred Hin. apply Hrow, elem_of_cons. now right.
Qed.

End Outer.

(** *** The whole table *)

Lemma raw_impact_inv model req preds cols sev R :
  raw_impact model req preds cols sev = Ok R ->
  exists bv p0,
    encode_user_symptoms req cols sev = Ok bv /\
    predict_proba model bv = Ok p0 /\
    (forall d ds, R !! d = Some ds ->
       (exists pred, pred ∈ preds /\ disease pred = d) /\
       disease_row model (symptoms_of req) (index_dict cols)
         (index_dict (classes_ model)) sev bv p0 d ds) /\
    (forall pred, pred ∈ preds -> is_Some (R !! disease pred)).
Proof.
  unfold raw_impact.
  destruct (encode_user_symptoms req cols sev) as [bv|e] eqn:Ev; [|discriminate].
  cbn. destruct (predict_proba model bv) as [p0|e] eqn:Ep; [|discriminate]. cbn.
  intros H. exists bv, p0. split; [reflexivity|]. split; [exact Ep|]. split.
  - intros d ds Hd.
    destruct (disease_loop_inv _ _ _ _ _ _ _ _ _ _ H _ _ Hd) as [H1|H1];
      [now rewrite lookup_empty in H1|exact H1].
  - intros pred Hin. eapply disease_loop_covers; eauto.
Qed.

Lemma raw_impact_ok model req preds cols sev :
  Forall is_str (symptoms_of req) ->
  classifier_ok model (length cols) ->
  (forall pred, pred ∈ preds -> disease pred ∈ classes_ model) ->
  exists R, raw_impact model req preds cols sev = Ok R.
Proof.
  intros Hstr Hok Hpreds. unfold raw_impact.
  destruct (encode_ok req cols sev Hstr) as (bv & -> & Hlen). cbn.
  destruct (Hok bv Hlen) as (p0 & -> & Hp0). cbn.
  apply disease_loop_ok. intros pred Hin.
  destruct (index_dict_elem _ _ (Hpreds _ Hin)) as [d_idx Hd].
  pose proof (index_dict_lt _ _ _ Hd) as Hlt.
  destruct (lookup_lt_is_Some_2 p0 d_idx) as [bp Hbp]; [lia|].
  destruct (symptom_loop_ok model (index_dict cols) sev bv d_idx bp ∅ (symptoms_of req))
    as [ds Hds].
  - intros s_idx Hs. destruct (Hok (<[s_idx := 0%Z]> bv)) as (p & Hp & Hpl).
    { now rewrite length_insert. }
    exists p. split; [assumption|]. apply lookup_lt_is_Some_2. lia.
  - intros s s_idx Hs. rewrite Hlen. eapply index_dict_lt, Hs.
  - exists ds, d_idx, bp. auto.
Qed.

(** *** The scores as one list *)

Lemma elem_of_dict_values {A} (m : gmap string A) (a : A) :
  a ∈ dict_values m <-> exists k, m !! k = Some a.
Proof.
  unfold dict_values. rewrite list_elem_of_fmap. split.
  - intros ([k a'] & -> & H). exists k. now apply elem_of_map_to_list.
  - intros (k & H). exists (k, a). split; [reflexivity|].
    now apply elem_of_map_to_list.
Qed.

Lemma elem_of_all_scores R q :
  q ∈ all_scores R <-> exists d ds s, R !! d = Some ds /\ ds !! s = Some q.
Proof.
  unfold all_scores. rewrite list_elem_of_bind. split.
  - intros (ds & Hq & Hds). apply elem_of_dict_values in Hq as [s Hs].
    apply elem_of_dict_values in Hds as [d Hd]. eauto.
  - intros (d & ds & s & Hd & Hs). exists ds.
    split; apply elem_of_dict_values; eauto.
Qed.

Lemma highest_impact_ge R q : q ∈ all_scores R -> (q <= highest_impact R)%Q.
Proof.
  unfold highest_impact. destruct (all_scores R) as [|x l]; intros H.
  - now apply elem_of_nil in H.
  - destruct (py_max_ge x l) as [Hx Hl]. apply elem_of_cons in H as [->|H];
      [assumption|]. rewrite Forall_forall in Hl. now apply Hl.
Qed.

Lemma highest_impact_elem R :
  all_scores R <> [] -> highest_impact R ∈ all_scores R.
Proof.
  unfold highest_impact. destruct (all_scores R) as [|x l]; [congruence|].
  intros _. apply py_max_elem.
Qed.

Lemma highest_impact_empty R : all_scores R = [] -> highest_impact R = 1%Q.
Proof. unfold highest_impact. now intros ->. Qed.

(** *** Entries of the final analysis *)

Lemma scale_lookup R d row s e :
  scale_contributions R !! d = Some row -> row !! s = Some e ->
  exists ds score,
    R !! d = Some ds /\ ds !! s = Some score /\
    e = scale_entry (highest_impact R) score.
Proof.
  unfold scale_contributions. rewrite lookup_fmap_Some.
  intros (ds & <- & Hd). rewrite lookup_fmap_Some. intros (score & <- & Hs).
  eauto.
Qed.

Lemma scale_lookup_2 R d ds s score :
  R !! d = Some ds -> ds !! s = Some score ->
  exists row,
    scale_contributions R !! d = Some row /\
    row !! s = Some (scale_entry (highest_impact R) score).
Proof.
  intros Hd Hs. unfold scale_contributions. eexists. split.
  - rewrite lookup_fmap, Hd. reflexivity.
  - now rewrite lookup_fmap, Hs.
Qed.

Lemma calculate_inv model req preds cols sev final :
  calculate_symptom_contributions model req preds cols sev = Ok final ->
  exists R, raw_impact model req preds cols sev = Ok R /\
            final = scale_contributions R.
Proof.
  unfold calculate_symptom_contributions.
  destruct (raw_impact model req preds cols sev) as [R|e]; [|discriminate].
  cbn. intros [= <-]. eauto.
Qed.

Lemma score_nonneg model fi sev bv d_idx bp s q :
  loo_score model fi sev bv d_idx bp s q ->
  (0 <= default 1%Z (sev !! s))%Z -> (0 <= q)%Q.
Proof.
  intros (i & np & p & _ & _ & _ & ->) Hw.
  apply Qmult_le_0_compat; [apply max0_nonneg|].
  unfold Qle. cbn. lia.
Qed.

Lemma weights_default (sev : gmap string Z) (s : string) :
  (forall s' w, sev !! s' = Some w -> (0 <= w)%Z) ->
  (0 <= default 1%Z (sev !! s))%Z.
Proof. intros H. destruct (sev !! s) as [w|] eqn:E; cbn; [eauto|lia]. Qed.

(** With non-negative weights every raw score is non-negative. *)
Lemma raw_impact_nonneg model req preds cols sev R q :
  raw_impact model req preds cols sev = Ok R ->
  (forall s w, sev !! s = Some w -> (0 <= w)%Z) ->
  q ∈ all_scores R -> (0 <= q)%Q.
Proof.
  intros HR Hw Hq. apply elem_of_all_scores in Hq as (d & ds & s & Hd & Hs).
  destruct (raw_impact_inv _ _ _ _ _ _ HR) as (bv & p0 & _ & _ & Hrow & _).
  destruct (Hrow _ _ Hd) as [_ (d_idx & bp & _ & _ & Hloop)].
  destruct (symptom_loop_inv _ _ _ _ _ _ _ _ _ Hloop _ _ Hs) as [H0|[_ Hsc]].
  - now rewrite lookup_empty in H0.
  - eapply score_nonneg; [exact Hsc|]. now apply weights_default.
Qed.

Lemma scaled_bounds H score :
  (0 <= score)%Q -> (score <= H)%Q ->
  (0 <= scaled (scale_entry H score) <= 100)%Q.
Proof.
  intros H0 HH. unfold scale_entry. cbn.
  destruct (Qle_bool H 0) eqn:E; [lra|].
  assert (0 < H)%Q as Hpos.
  { apply Qnot_le_lt. intros Hle. apply Qle_bool_iff in Hle. congruence. }
  assert (0 <= score / H * 100 <= 100)%Q as [Hl Hu].
  { pose proof (Qinv_lt_0_compat _ Hpos) as Hinv.
    assert (H * / H == 1)%Q as Hone by (apply Qmult_inv_r; lra).
    unfold Qdiv. split; nra. }
  split; [now apply py_round_nonneg|now apply py_round_le_100].
Qed.

Lemma scaled_top H : (0 < H)%Q -> (scaled (scale_entry H H) == 100)%Q.
Proof.
  intros Hpos. unfold scale_entry. cbn.
  destruct (Qle_bool H 0) eqn:E; [apply Qle_bool_iff in E; lra|].
  transitivity (py_round 100 2); [|apply py_round_100].
  apply py_round_compat. field. lra.
Qed.

Lemma py_round_0_6 : (py_round 0 6 == 0)%Q.
Proof. vm_compute. reflexivity. Qed.

Lemma ex_final_computed :
  calculate_symptom_contributions ex_model ex_req [ex_pred] ex_cols ex_sev
  = Ok ex_final.
Proof. vm_compute. reflexivity. Qed.

Lemma ex_model_ok : classifier_ok ex_model (length ex_cols).
Proof.
  intros v Hv. unfold ex_model. cbn [predict_proba classes_].
  repeat case_decide; try (eexists; split; reflexivity).
  cbn in *. congruence.
Qed.

End Analyzer.

(** * Binary64 rounding *)

Module Binary64.
Import Numeric.
Local Open Scope Q_scope.

Lemma pow2_pos e : 0 < 2 ^ e.
Proof. now apply Qpower_0_lt. Qed.

Lemma pow2_plus a b : 2 ^ (a + b) == 2 ^ a * 2 ^ b.
Proof. now rewrite Qpower_plus. Qed.

Lemma pow2_succ e : 2 ^ (e + 1) == 2 * 2 ^ e.
Proof. rewrite pow2_plus, Qpower_1_r. ring. Qed.

Lemma pow2_log2 n :
  (0 < n)%Z -> 2 ^ Z.log2 n <= inject_Z n /\ inject_Z n < 2 * 2 ^ Z.log2 n.
Proof.
  intros Hn. destruct (Z.log2_spec n Hn) as [Hl Hu].
  pose proof (Z.log2_nonneg n) as H0.
  rewrite <- pow2_succ. change 2 with (inject_Z 2).
  rewrite <- !Zpower_Qpower by lia. rewrite <- Zle_Qle, <- Zlt_Qlt.
  split; [exact Hl|]. now rewrite <- Z.add_1_r in Hu.
Qed.

(** [ilog2] finds the binade of a positive rational. *)
Lemma ilog2_spec x : 0 < x -> 2 ^ ilog2 x <= x /\ x < 2 ^ (ilog2 x + 1).
Proof.
  intros Hx. unfold ilog2.
  assert (0 < Qnum x)%Z as Hn by (unfold Qlt in Hx; cbn in Hx; lia).
  destruct (pow2_log2 (Qnum x) Hn) as [Ha1 Ha2].
  destruct (pow2_log2 (Z.pos (Qden x)) eq_refl) as [Hb1 Hb2].
  set (a := Z.log2 (Qnum x)) in *. set (b := Z.log2 (Z.pos (Qden x))) in *.
  pose proof (pow2_pos a) as HA. pose proof (pow2_pos b) as HB.
  pose proof (pow2_pos (a - b)) as HE.
  assert (2 ^ a == 2 ^ (a - b) * 2 ^ b) as Hab.
  { rewrite <- pow2_plus. now replace (a - b + b)%Z with a by lia. }
  assert (inject_Z (Qnum x) == x * inject_Z (Z.pos (Qden x))) as Hxd.
  { destruct x as [n d]. unfold Qeq, Qmult, inject_Z. cbn. lia. }
  cbn zeta.
  destruct (Qle_bool (2 ^ (a - b)) x) eqn:E.
  - apply Qle_bool_iff in E. split; [exact E|]. rewrite pow2_succ.
    apply Qnot_le_lt. intros Hle. nra.
  - assert (x < 2 ^ (a - b)) as Hlt.
    { apply Qnot_le_lt. intros H. apply Qle_bool_iff in H. congruence. }
    replace (a - b - 1 + 1)%Z with (a - b)%Z by lia. split; [|exact Hlt].
    assert (2 ^ (a - b) == 2 * 2 ^ (a - b - 1)) as Hs.
    { rewrite <- pow2_succ. now replace (a - b - 1 + 1)%Z with (a - b)%Z by lia. }
    pose proof (pow2_pos (a - b - 1)).
    apply Qnot_lt_le. intros Hc. nra.
Qed.

Lemma ilog2_mono x y : 0 < x -> x <= y -> (ilog2 x <= ilog2 y)%Z.
Proof.
  intros Hx Hxy. destruct (ilog2_spec x Hx) as [Hl _].
  destruct (ilog2_spec y) as [_ Hu]; [lra|].
  assert (2 ^ ilog2 x < 2 ^ (ilog2 y + 1)) as H by lra.
  apply Qpower_lt_compat_l_inv in H; [lia|reflexivity].
Qed.

(** An integer is rounded to itself. *)
Lemma round_half_even_inject k : round_half_even (inject_Z k) = k.
Proof.
  unfold round_half_even. rewrite Qfloor_Z.
  destruct (Qcompare_spec (inject_Z k - inject_Z k) (1 # 2)) as [H|H|H];
    [lra|reflexivity|lra].
Qed.

Lemma ulp_pos x : 0 < ulp x.
Proof. apply pow2_pos. Qed.

Lemma exponent_upper x : 0 < x -> x < 2 ^ (exponent x + 1).
Proof.
  intros Hx. destruct (ilog2_spec x Hx) as [_ Hu].
  eapply Qlt_le_trans; [exact Hu|]. apply Qpower_le_compat_l; [|discriminate].
  unfold exponent. lia.
Qed.

Lemma fl64_pos_nonneg x : 0 <= x -> 0 <= fl64_pos x.
Proof.
  intros Hx. unfold fl64_pos. pose proof (ulp_pos x) as Hu.
  apply Qmult_le_0_compat; [|lra].
  change 0 with (inject_Z 0). rewrite <- Zle_Qle. apply round_half_even_nonneg.
  apply Qle_shift_div_l; [assumption|lra].
Qed.

(** A number is rounded at most to the top of its binade. *)
Lemma fl64_pos_upper x : 0 < x -> fl64_pos x <= 2 ^ (exponent x + 1).
Proof.
  intros Hx. unfold fl64_pos, ulp. set (e := exponent x).
  pose proof (pow2_pos (e - 52)) as Hu. pose proof (exponent_upper x Hx) as Hlt.
  fold e in Hlt.
  assert (2 ^ (e + 1) == inject_Z (2 ^ 53) * 2 ^ (e - 52)) as Htop.
  { change (inject_Z (2 ^ 53)) with (2 ^ 53). rewrite <- pow2_plus.
    now replace (53 + (e - 52))%Z with (e + 1)%Z by lia. }
  rewrite Htop. apply Qmult_le_compat_r; [|lra].
  rewrite <- Zle_Qle. rewrite <- (round_half_even_inject (2 ^ 53)).
  apply round_half_even_mono. apply Qle_shift_div_r; [assumption|]. lra.
Qed.

(** A normal number is rounded at least to the bottom of its binade. *)
Lemma fl64_pos_lower x :
  0 < x -> (-1022 < exponent x)%Z -> 2 ^ exponent x <= fl64_pos x.
Proof.
  intros Hx He. unfold fl64_pos, ulp. set (e := exponent x).
  pose proof (pow2_pos (e - 52)) as Hu.
  destruct (ilog2_spec x Hx) as [Hl _].
  assert (ilog2 x = e) as Hi by (unfold e, exponent in *; lia).
  rewrite Hi in Hl.
  assert (2 ^ e == inject_Z (2 ^ 52) * 2 ^ (e - 52)) as Hbot.
  { change (inject_Z (2 ^ 52)) with (2 ^ 52). rewrite <- pow2_plus.
    now replace (52 + (e - 52))%Z with e by lia. }
  rewrite Hbot at 1. apply Qmult_le_compat_r; [|lra].
  rewrite <- Zle_Qle. rewrite <- (round_half_even_inject (2 ^ 52)) at 1.
  apply round_half_even_mono. apply Qle_shift_div_l; [assumption|]. lra.
Qed.

Lemma fl64_pos_mono x y : 0 < x -> x <= y -> fl64_pos x <= fl64_pos y.
Proof.
  intros Hx Hxy. assert (0 < y) as Hy by lra.
  assert (exponent x <= exponent y)%Z as He.
  { pose proof (ilog2_mono x y Hx Hxy). unfold exponent. lia. }
  destruct (Z.eq_dec (exponent x) (exponent y)) as [E|NE].
  - unfold fl64_pos, ulp. rewrite E. pose proof (pow2_pos (exponent y - 52)) as Hu.
    apply Qmult_le_compat_r; [|lra]. rewrite <- Zle_Qle.
    apply round_half_even_mono. unfold Qdiv. apply Qmult_le_compat_r; [assumption|].
    apply Qlt_le_weak, Qinv_lt_0_compat, Hu.
  - apply Qle_trans with (2 ^ (exponent x + 1)); [now apply fl64_pos_upper|].
    apply Qle_trans with (2 ^ exponent y).
    + apply Qpower_le_compat_l; [lia|discriminate].
    + apply fl64_pos_lower; [assumption|]. unfold exponent in *. lia.
Qed.

(** Rounding to binary64 keeps the order. *)
Lemma fl64_mono x y : x <= y -> fl64 x <= fl64 y.
Proof.
  intros Hxy. unfold fl64.
  destruct (Qcompare_spec x 0) as [Hx|Hx|Hx], (Qcompare_spec y 0) as [Hy|Hy|Hy];
    try lra.
  - apply fl64_pos_nonneg. lra.
  - assert (0 <= fl64_pos (- x)) by (apply fl64_pos_nonneg; lra). lra.
  - assert (fl64_pos (- y) <= fl64_pos (- x)) by (apply fl64_pos_mono; lra). lra.
  - assert (0 <= fl64_pos (- x)) by (apply fl64_pos_nonneg; lra).
    assert (0 <= fl64_pos y) by (apply fl64_pos_nonneg; lra). lra.
  - now apply fl64_pos_mono.
Qed.

(** The rounded value is a binary64 number: an integer of at most 53 bits
    times a power of two not below [2 ^ -1074]. *)
Lemma fl64_pos_representable x :
  0 < x ->
  exists m e, fl64_pos x = inject_Z m * 2 ^ e /\
              (0 <= m <= 2 ^ 53)%Z /\ (-1074 <= e)%Z.
Proof.
  intros Hx. exists (round_half_even (x / ulp x)), (exponent x - 52)%Z.
  split; [reflexivity|]. split; [|unfold exponent; lia].
  pose proof (ulp_pos x) as Hu. split.
  - apply round_half_even_nonneg. apply Qle_shift_div_l; [assumption|lra].
  - rewrite <- (round_half_even_inject (2 ^ 53)). apply round_half_even_mono.
    apply Qle_shift_div_r; [assumption|].
    pose proof (exponent_upper x Hx) as Hlt. unfold ulp.
    assert (2 ^ (exponent x + 1) == inject_Z (2 ^ 53) * 2 ^ (exponent x - 52)) as <-;
      [|lra].
    change (inject_Z (2 ^ 53)) with (2 ^ 53). rewrite <- pow2_plus.
    now replace (53 + (exponent x - 52))%Z with (exponent x + 1)%Z by lia.
Qed.

(** The rounded value is nearest: within half a unit of the argument. *)
Lemma fl64_pos_nearest x :
  0 < x -> Qabs (fl64_pos x - x) <= ulp x / 2.
Proof.
  intros Hx. unfold fl64_pos. pose proof (ulp_pos x) as Hu.
  set (u := ulp x) in *. set (y := x / u).
  assert (x == y * u) as Hxy by (unfold y; field; lra).
  assert (Qabs (inject_Z (round_half_even y) - y) <= 1 # 2) as Hr.
  { unfold round_half_even.
    pose proof (Qfloor_le y) as Hf1. pose proof (Qlt_floor y) as Hf2.
    rewrite inject_Z_plus in Hf2. change (inject_Z 1) with 1 in Hf2.
    apply Qabs_Qle_condition.
    destruct (Qcompare_spec (y - inject_Z (Qfloor y)) (1 # 2)) as [H|H|H];
      [destruct (Z.even (Qfloor y))|..];
      rewrite ?inject_Z_plus; change (inject_Z 1) with 1; split; lra. }
  apply Qabs_Qle_condition in Hr as [Hr1 Hr2].
  apply Qabs_Qle_condition.
  set (r := inject_Z (round_half_even y)) in *.
  assert ((r - y) * u <= (1 # 2) * u) as H1 by (apply Qmult_le_compat_r; lra).
  assert (- (1 # 2) * u <= (r - y) * u) as H2 by (apply Qmult_le_compat_r; lra).
  assert (u / 2 == (1 # 2) * u) as -> by field.
  clearbody r y u. split; lra.
Qed.

Lemma fl64_zero x : x == 0 -> fl64 x = 0.
Proof. intros H. unfold fl64. apply Qeq_alt in H. now rewrite H. Qed.

Lemma py_round_zero n : py_round 0 n == 0.
Proof. unfold py_round. rewrite Qred_correct. reflexivity. Qed.

Lemma scale_nonneg n : 0 <= inject_Z (Z.pos (10 ^ n)).
Proof. apply Qlt_le_weak, scale_pos. Qed.

Lemma exact_arith_ok : rounding_ok exact_arith.
Proof.
  unfold rounding_ok, exact_arith. cbn.
  split; [auto|]. do 3 (split; [reflexivity|]).
  split; [intros n x y; apply py_round_mono|].
  split; [apply py_round_zero|apply py_round_100].
Qed.

(** The arithmetic of CPython's [float]. *)
Lemma python_float_ok : rounding_ok python_float.
Proof.
  unfold rounding_ok, python_float. cbn.
  split; [exact fl64_mono|]. do 3 (split; [vm_compute; reflexivity|]).
  split; [|split; [|vm_compute; reflexivity]].
  - intros n x y H. now apply fl64_mono, py_round_mono.
  - intros n. now rewrite (fl64_zero _ (py_round_zero n)).
Qed.

(** The arithmetic of NumPy's [float64]. *)
Lemma numpy_float64_ok : rounding_ok numpy_float64.
Proof.
  unfold rounding_ok, numpy_float64. cbn.
  split; [exact fl64_mono|]. do 3 (split; [vm_compute; reflexivity|]).
  split; [|split; [|vm_compute; reflexivity]].
  - intros n x y H. pose proof (scale_pos (10 ^ n)) as Hf.
    apply fl64_mono. unfold Qdiv. apply Qmult_le_compat_r.
    + rewrite <- Zle_Qle. apply round_half_even_mono, fl64_mono.
      apply Qmult_le_compat_r; [assumption|lra].
    + apply Qlt_le_weak, Qinv_lt_0_compat, Hf.
  - intros n. rewrite (fl64_zero (0 * inject_Z (Z.pos (10 ^ n)))) by apply Qmult_0_l.
    rewrite fl64_zero; [reflexivity|]. unfold Qdiv. apply Qmult_0_l.
Qed.

End Binary64.

(** * The analyzer in floating point *)

Module AnalyzerFl.
Import Loops Encoder Numeric Analyzer.

#[local] Arguments symptom_body_fl : simpl never.
#[local] Arguments disease_body_fl : simpl never.

(** With exact arithmetic the floating-point analysis is the exact one. *)
Lemma calculate_fl_exact model req preds cols sev :
  calculate_symptom_contributions_fl exact_arith model req preds cols sev
  = calculate_symptom_contributions model req preds cols sev.
Proof. reflexivity. Qed.

Section Inner.
Variables (A : float_arith) (model : classifier) (fi : gmap string nat)
          (sev : gmap string Z) (bv : list Z) (d_idx : nat) (bp : Q).
#[local] Abbreviation body := (symptom_body_fl A model fi sev bv d_idx bp).
#[local] Abbreviation score := (loo_score_fl A model fi sev bv d_idx bp).

Lemma symptom_body_fl_cases m x m' :
  body m x = Ok m' ->
  (m' = m /\ forall s, x = PyStr s -> fi !! s = None) \/
  (exists s q, x = PyStr s /\ score s q /\ m' = <[s := q]> m).
Proof.
  unfold symptom_body_fl. destruct x as [s| |].
  - destruct (fi !! s) as [s_idx|] eqn:E.
    + destruct (predict_proba model (<[s_idx:=0%Z]> bv)) as [np|e] eqn:Ep;
        [|discriminate]. cbn. unfold list_getitem.
      destruct (np !! d_idx) as [p|] eqn:Ed; [|discriminate]. cbn.
      intros [= <-]. right. eexists s, _. split; [reflexivity|].
      split; [|reflexivity]. exists s_idx, np, p. auto.
    + intros [= <-]. left. split; [reflexivity|]. now intros ? [= <-].
  - intros [= <-]. left. split; [reflexivity|]. discriminate.
  - intros [= <-]. left. split; [reflexivity|]. discriminate.
Qed.

Lemma symptom_loop_fl_inv m0 l m :
  for_each body m0 l = Ok m ->
  forall s q, m !! s = Some q ->
    m0 !! s = Some q \/ (PyStr s ∈ l /\ score s q).
Proof.
  revert m0. induction l as [|x l IH]; intros m0; cbn [for_each].
  - intros [= <-]. auto.
  - destruct (body m0 x) as [m1|e] eqn:E; [|discriminate]. cbn.
    intros H s q Hs. destruct (IH _ H _ _ Hs) as [H1|[Hin Hsc]].
    + apply symptom_body_fl_cases in E as [[-> _]|(s' & q' & -> & Hsc & ->)];
        [auto|].
      destruct (decide (s' = s)) as [->|Hne].
      * rewrite lookup_insert_eq in H1. injection H1 as <-.
        right. split; [apply elem_of_cons; now left|assumption].
      * rewrite lookup_insert_ne in H1 by assumption. auto.
    + right. split; [apply elem_of_cons; now right|assumption].
Qed.



End Inner.

Section Outer.
Variables (A : float_arith) (model : classifier) (symptoms : list pyobj)
          (fi di : gmap string nat) (sev : gmap string Z)
          (bv : list Z) (bprobs : list Q).
#[local] Abbreviation body := (disease_body_fl A model symptoms fi di sev bv bprobs).
#[local] Abbreviation row := (disease_row_fl A model symptoms fi di sev bv bprobs).

Lemma disease_body_fl_cases R pred R' :
  body R pred = Ok R' ->
  exists ds, row (disease pred) ds /\ R' = <[disease pred := ds]> R.
Proof.
  unfold disease_body_fl, dict_getitem, list_getitem.
  destruct (di !! disease pred) as [d_idx|] eqn:Ed; [|discriminate]. cbn.
  destruct (bprobs !! d_idx) as [bp|] eqn:Eb; [|discriminate]. cbn.
  destruct (for_each _ ∅ symptoms) as [ds|e] eqn:El; [|discriminate]. cbn.
  intros [= <-]. exists ds. split; [|reflexivity]. exists d_idx, bp. auto.
Qed.

Lemma disease_loop_fl_inv R0 preds R :
  for_each body R0 preds = Ok R ->
  forall d ds, R !! d = Some ds ->
    R0 !! d = Some ds \/ ((exists pred, pred ∈ preds /\ disease pred = d) /\ row d ds).
Proof.
  revert R0. induction preds as [|x l IH]; intros R0; cbn [for_each].
  - intros [= <-]. auto.
  - destruct (body R0 x) as [R1|e] eqn:E; [|discriminate]. cbn.
    intros H d ds Hd. destruct (IH _ H _ _ Hd) as [H1|[(pred & Hin & Hp) Hrow]].
    + apply disease_body_fl_cases in E as (ds' & Hrow & ->).
      destruct (decide (disease x = d)) as [<-|Hne].
      * rewrite lookup_insert_eq in H1. injection H1 as <-.
        right. split; [|assumption]. exists x. split; [|reflexivity].
        apply elem_of_cons. now left.
      * rewrite lookup_insert_ne in H1 by assumption. auto.
    + right. split; [|assumption]. exists pred. split; [|assumption].
      apply elem_of_cons. now right.
Qed.

Lemma disease_loop_fl_keeps R0 preds R d :
  for_each body R0 preds = Ok R -> is_Some (R0 !! d) -> is_Some (R !! d).
Proof.
  revert R0. induction preds as [|x l IH]; intros R0; cbn [for_each].
  - now intros [= <-].
  - destruct (body R0 x) as [R1|e] eqn:E; [|discriminate]. cbn.
    intros H Hs. apply (IH _ H).
    apply disease_body_fl_cases in E as (ds' & _ & ->).
    rewrite lookup_insert_is_Some. destruct (decide (disease x = d)); auto.
Qed.

Lemma disease_loop_fl_covers R0 preds R pred :
  for_each body R0 preds = Ok R -> pred ∈ preds -> is_Some (R !! disease pred).
Proof.
  revert R0. induction preds as [|x l IH]; intros R0; cbn [for_each].
  - intros _ H. now apply elem_of_nil in H.
  - destruct (body R0 x) as [R1|e] eqn:E; [|discriminate]. cbn.
    intros H Hin. apply elem_of_cons in Hin as [->|Hin]; [|eauto].
    apply (disease_loop_fl_keeps _ _ _ _ H).
    apply disease_body_fl_cases in E as (ds' & _ & ->).
    rewrite lookup_insert_eq. eauto.
Qed.

End Outer.

(** *** The whole table *)

Lemma raw_impact_fl_inv A model req preds cols sev R :
  raw_impact_fl A model req preds cols sev = Ok R ->
  exists bv p0,
    encode_user_symptoms req cols sev = Ok bv /\
    predict_proba model bv = Ok p0 /\
    (forall d ds, R !! d = Some ds ->
       (exists pred, pred ∈ preds /\ disease pred = d) /\
       disease_row_fl A model (symptoms_of req) (index_dict cols)
         (index_dict (classes_ model)) sev bv p0 d ds) /\
    (forall pred, pred ∈ preds -> is_Some (R !! disease pred)).
Proof.
  unfold raw_impact_fl.
  destruct (encode_user_symptoms req cols sev) as [bv|e] eqn:Ev; [|discriminate].
  cbn. destruct (predict_proba model bv) as [p0|e] eqn:Ep; [|discriminate]. cbn.
  intros H. exists bv, p0. split; [reflexivity|]. split; [exact Ep|]. split.
  - intros d ds Hd.
    destruct (disease_loop_fl_inv _ _ _ _ _ _ _ _ _ _ _ H _ _ Hd) as [H1|H1];
      [now rewrite lookup_empty in H1|exact H1].
  - intros pred Hin. eapply disease_loop_fl_covers; eauto.
Qed.

(** *** Entries of the final analysis *)

Lemma scale_lookup_fl A R d row s e :
  scale_contributions_fl A R !! d = Some row -> row !! s = Some e ->
  exists ds score,
    R !! d = Some ds /\ ds !! s = Some score /\
    e = scale_entry_fl A (highest_impact R) score.
Proof.
  unfold scale_contributions_fl. rewrite lookup_fmap_Some.
  intros (ds & <- & Hd). rewrite lookup_fmap_Some. intros (score & <- & Hs).
  eauto.
Qed.

Lemma scale_lookup_fl_2 A R d ds s score :
  R !! d = Some ds -> ds !! s = Some score ->
  exists row,
    scale_contributions_fl A R !! d = Some row /\
    row !! s = Some (scale_entry_fl A (highest_impact R) score).
Proof.
  intros Hd Hs. unfold scale_contributions_fl. eexists. split.
  - rewrite lookup_fmap, Hd. reflexivity.
  - now rewrite lookup_fmap, Hs.
Qed.

Lemma calculate_fl_inv A model req preds cols sev final :
  calculate_symptom_contributions_fl A model req preds cols sev = Ok final ->
  exists R, raw_impact_fl A model req preds cols sev = Ok R /\
            final = scale_contributions_fl A R.
Proof.
  unfold calculate_symptom_contributions_fl.
  destruct (raw_impact_fl A model req preds cols sev) as [R|e]; [|discriminate].
  cbn. intros [= <-]. eauto.
Qed.

(** *** What a rounding to nearest preserves *)

Section Rounding.
Local Open Scope Q_scope.
Variable A : float_arith.
Hypothesis A_ok : rounding_ok A.

Lemma fl_mono x y : x <= y -> fl A x <= fl A y.
Proof. destruct A_ok as (H & _). apply H. Qed.

Lemma fl_compat x y : x == y -> fl A x == fl A y.
Proof. intros H. apply Qle_antisym; apply fl_mono; rewrite H; apply Qle_refl. Qed.

Lemma fl_nonneg x : 0 <= x -> 0 <= fl A x.
Proof.
  destruct A_ok as (_ & H0 & _). intros H.
  apply Qle_trans with (fl A 0); [now rewrite H0|now apply fl_mono].
Qed.



Lemma fl_le_1 x : x <= 1 -> fl A x <= 1.
Proof.
  destruct A_ok as (_ & _ & H1 & _). intros H.
  apply Qle_trans with (fl A 1); [now apply fl_mono|now rewrite H1].
Qed.

Lemma fl_le_100 x : x <= 100 -> fl A x <= 100.
Proof.
  destruct A_ok as (_ & _ & _ & H100 & _). intros H.
  apply Qle_trans with (fl A 100); [now apply fl_mono|now rewrite H100].
Qed.

Lemma fl_one x : x == 1 -> fl A x == 1.
Proof.
  destruct A_ok as (_ & _ & H1 & _). intros H.
  transitivity (fl A 1); [now apply fl_compat|exact H1].
Qed.

Lemma fl_hundred x : x == 100 -> fl A x == 100.
Proof.
  destruct A_ok as (_ & _ & _ & H100 & _). intros H.
  transitivity (fl A 100); [now apply fl_compat|exact H100].
Qed.

Lemma round_to_mono n x y : x <= y -> round_to A x n <= round_to A y n.
Proof. destruct A_ok as (_ & _ & _ & _ & H & _). apply H. Qed.

Lemma round_to_compat n x y : x == y -> round_to A x n == round_to A y n.
Proof.
  intros H. apply Qle_antisym; apply round_to_mono; rewrite H; apply Qle_refl.
Qed.

Lemma round_to_nonneg n x : 0 <= x -> 0 <= round_to A x n.
Proof.
  destruct A_ok as (_ & _ & _ & _ & _ & H0 & _). intros H.
  apply Qle_trans with (round_to A 0 n); [now rewrite H0|now apply round_to_mono].
Qed.


Lemma round_to_le_100 x : x <= 100 -> round_to A x 2 <= 100.
Proof.
  destruct A_ok as (_ & _ & _ & _ & _ & _ & H100). intros H.
  apply Qle_trans with (round_to A 100 2); [now apply round_to_mono|now rewrite H100].
Qed.

Lemma round_to_hundred x : x == 100 -> round_to A x 2 == 100.
Proof.
  destruct A_ok as (_ & _ & _ & _ & _ & _ & H100). intros H.
  transitivity (round_to A 100 2); [now apply round_to_compat|exact H100].
Qed.


Lemma drop_nonneg p0 p1 (w : Z) :
  (0 <= w)%Z -> 0 <= fl A (max0 (fl A (p0 - p1)) * fl A (inject_Z w)).
Proof.
  intros H. apply fl_nonneg, Qmult_le_0_compat; [apply max0_nonneg|].
  apply fl_nonneg. unfold Qle. cbn. lia.
Qed.

Lemma loo_score_fl_nonneg model fi sev bv d_idx bp s q :
  loo_score_fl A model fi sev bv d_idx bp s q ->
  (0 <= default 1%Z (sev !! s))%Z -> 0 <= q.
Proof. intros (i & np & p & _ & _ & _ & ->) Hw. now apply drop_nonneg. Qed.

(** With non-negative weights every raw score is non-negative. *)
Lemma raw_impact_fl_nonneg model req preds cols sev R q :
  raw_impact_fl A model req preds cols sev = Ok R ->
  (forall s w, sev !! s = Some w -> (0 <= w)%Z) ->
  q ∈ all_scores R -> 0 <= q.
Proof.
  intros HR Hw Hq. apply elem_of_all_scores in Hq as (d & ds & s & Hd & Hs).
  destruct (raw_impact_fl_inv _ _ _ _ _ _ _ HR) as (bv & p0 & _ & _ & Hrow & _).
  destruct (Hrow _ _ Hd) as [_ (d_idx & bp & _ & _ & Hloop)].
  destruct (symptom_loop_fl_inv _ _ _ _ _ _ _ _ _ _ Hloop _ _ Hs) as [H0|[_ Hsc]].
  - now rewrite lookup_empty in H0.
  - eapply loo_score_fl_nonneg; [exact Hsc|]. now apply weights_default.
Qed.

(** A quotient of [0 <= score <= H] stays in [0, 1] and its product with 100
    in [0, 100], through both roundings. *)
Lemma percent_bounds H score :
  0 < H -> 0 <= score -> score <= H ->
  0 <= fl A (fl A (score / H) * 100) <= 100.
Proof.
  intros Hpos Hs HsH.
  pose proof (Qinv_lt_0_compat _ Hpos) as Hinv.
  assert (H * / H == 1) as Hone by (apply Qmult_inv_r; lra).
  assert (0 <= score / H <= 1) as [Hq0 Hq1] by (unfold Qdiv; split; nra).
  pose proof (fl_nonneg _ Hq0). pose proof (fl_le_1 _ Hq1).
  split; [apply fl_nonneg|apply fl_le_100]; lra.
Qed.

Lemma percent_top H : 0 < H -> fl A (fl A (H / H) * 100) == 100.
Proof.
  intros Hpos. apply fl_hundred.
  assert (fl A (H / H) == 1) as -> by (apply fl_one; field; lra). reflexivity.
Qed.

Lemma scaled_fl_bounds H score :
  0 <= score -> score <= H ->
  0 <= scaled (scale_entry_fl A H score) <= 100.
Proof.
  intros H0 HH. unfold scale_entry_fl. cbn.
  destruct (Qle_bool H 0) eqn:E; [lra|].
  assert (0 < H) as Hpos.
  { apply Qnot_le_lt. intros Hle. apply Qle_bool_iff in Hle. congruence. }
  destruct (percent_bounds H score Hpos H0 HH) as [Hl Hu].
  split; [now apply round_to_nonneg|now apply round_to_le_100].
Qed.

Lemma scaled_fl_top H : 0 < H -> scaled (scale_entry_fl A H H) == 100.
Proof.
  intros Hpos. unfold scale_entry_fl. cbn.
  destruct (Qle_bool H 0) eqn:E; [apply Qle_bool_iff in E; lra|].
  now apply round_to_hundred, percent_top.
Qed.

(** The rescaling of a table of non-negative scores. *)
Lemma rescaling_spec R :
  (forall q, q ∈ all_scores R -> 0 <= q) ->
  (forall d ds s score, R !! d = Some ds -> ds !! s = Some score ->
     exists row e,
       scale_contributions_fl A R !! d = Some row /\ row !! s = Some e) /\
  (forall d row s e,
     scale_contributions_fl A R !! d = Some row -> row !! s = Some e ->
     exists ds score,
       R !! d = Some ds /\ ds !! s = Some score /\
       (highest_impact R <= 0 -> scaled e = 0) /\
       (0 < highest_impact R ->
          scaled e = round_to A (fl A (fl A (score / highest_impact R) * 100)) 2) /\
       0 <= scaled e <= 100) /\
  ((exists q, q ∈ all_scores R /\ 0 < q) ->
   exists d row s e,
     scale_contributions_fl A R !! d = Some row /\ row !! s = Some e /\
     scaled e == 100).
Proof.
  intros Hnn. split; [|split].
  - intros d ds s score Hd Hs.
    destruct (scale_lookup_fl_2 A _ _ _ _ _ Hd Hs) as (row & Hrow & He). eauto.
  - intros d row s e Hd Hs.
    destruct (scale_lookup_fl _ _ _ _ _ _ Hd Hs) as (ds & score & HRd & Hds & ->).
    exists ds, score. split; [assumption|]. split; [assumption|].
    assert (score ∈ all_scores R) as Hin by (apply elem_of_all_scores; eauto).
    split; [|split].
    + intros Hle. unfold scale_entry_fl. cbn. apply Qle_bool_iff in Hle. now rewrite Hle.
    + intros Hlt. unfold scale_entry_fl. cbn.
      destruct (Qle_bool (highest_impact R) 0) eqn:E; [|reflexivity].
      apply Qle_bool_iff in E. lra.
    + apply scaled_fl_bounds; [now apply Hnn|now apply highest_impact_ge].
  - intros (q & Hq & Hpos).
    assert (all_scores R <> []) as Hne.
    { intros Hnil. rewrite Hnil in Hq. now apply elem_of_nil in Hq. }
    pose proof (highest_impact_ge _ _ Hq) as Hge.
    apply highest_impact_elem, elem_of_all_scores in Hne as (d & ds & s & Hd & Hs).
    destruct (scale_lookup_fl_2 A _ _ _ _ _ Hd Hs) as (row & Hrow & He).
    eexists d, row, s, _. split; [exact Hrow|]. split; [exact He|].
    apply scaled_fl_top. lra.
Qed.

End Rounding.

End AnalyzerFl.

(** * The reference scenario in binary64 *)

Module Scenario64.

Lemma ex_final64_computed :
  calculate_symptom_contributions_fl python_float ex_model64 ex_req [ex_pred]
    ex_cols ex_sev
  = Ok ex_final64.
Proof. vm_compute. reflexivity. Qed.

(** NumPy's [round] gives the same floats here. *)
Lemma ex_final64_numpy :
  calculate_symptom_contributions_fl numpy_float64 ex_model64 ex_req [ex_pred]
    ex_cols ex_sev
  = Ok ex_final64.
Proof. vm_compute. reflexivity. Qed.






Lemma ex_raw64_computed :
  raw_impact_fl python_float ex_model64 ex_req [ex_pred] ex_cols ex_sev
  = Ok ex_raw64.
Proof. vm_compute. reflexivity. Qed.

Lemma ex_raw64_row :
  ex_raw64 !! "FungalInfection"
  = Some (<["skin_rash" := fl64 (3 # 4)]>
            {[ "itching" := fl64 (fl64 (95 # 100) - fl64 (90 # 100)) ]}).
Proof. reflexivity. Qed.

Lemma ex_sev_nonneg s w : ex_sev !! s = Some w -> (0 <= w)%Z.
Proof.
  unfold ex_sev. rewrite !lookup_insert_Some, lookup_empty.
  intros H; decompose [and or] H; subst; first [lia|discriminate].
Qed.

End Scenario64.

(** * The ranker *)

Module Ranker.
Import Numeric.

Lemma format_sorted l :
  StronglySorted ge_prob l -> StronglySorted ge_probability (format_prediction <$> l).
Proof.
  induction 1 as [|x l Hl IH Hx]; cbn; constructor; [assumption|].
  apply Forall_fmap. eapply Forall_impl; [exact Hx|].
  intros y Hy. unfold ge_probability. cbn. now apply py_round_mono.
Qed.

Lemma rank_top_k_length classes probs k :
  length probs = length classes ->
  length (rank_top_k classes probs k) =
  if (0 <=? k)%Z then Nat.min (Z.to_nat k) (length classes)
  else (length classes - Z.to_nat (- k))%nat.
Proof.
  intros Hlen. unfold rank_top_k. rewrite length_fmap, slice_to_length.
  rewrite (Permutation_length (sorted_desc_perm _)), length_zip_with.
  now rewrite Hlen, Nat.min_id.
Qed.

Lemma rank_top_k_sorted classes probs k :
  StronglySorted ge_probability (rank_top_k classes probs k).
Proof. apply format_sorted, slice_to_sorted, sorted_desc_sorted. Qed.

Lemma rank_top_k_entries classes probs k :
  Forall (fun e => exists q, (disease e, q) ∈ zip classes probs /\
                             probability e = py_round q 4)
         (rank_top_k classes probs k).
Proof.
  apply Forall_forall. intros e He. unfold rank_top_k in He.
  apply list_elem_of_fmap in He as ([d q] & -> & Hin).
  apply slice_to_elem in Hin. rewrite sorted_desc_perm in Hin.
  exists q. split; [exact Hin|reflexivity].
Qed.

Lemma rank_top_k_all classes probs k :
  length probs = length classes -> (Z.of_nat (length classes) <= k)%Z ->
  disease <$> rank_top_k classes probs k ≡ₚ classes.
Proof.
  intros Hlen Hk. unfold rank_top_k. rewrite slice_to_all.
  - rewrite <- list_fmap_compose.
    change (disease ∘ format_prediction) with (@fst string Q).
    rewrite sorted_desc_perm. rewrite fst_zip; [reflexivity|lia].
  - rewrite (Permutation_length (sorted_desc_perm _)), length_zip_with. lia.
Qed.

(** The slice is a prefix of the full ranking. *)
Lemma rank_top_k_prefix classes probs k :
  rank_top_k classes probs k =
  slice_to (rank_top_k classes probs (Z.of_nat (length (zip classes probs)))) k.
Proof.
  unfold rank_top_k. rewrite (slice_to_all _ (Z.of_nat _)).
  - unfold slice_to. rewrite length_fmap. destruct (0 <=? k)%Z; apply fmap_take.
  - now rewrite (Permutation_length (sorted_desc_perm _)).
Qed.

Lemma predict_top_k_eq model req cols sev k v probs :
  encode_user_symptoms req cols sev = Ok v ->
  predict_proba model v = Ok probs ->
  predict_top_k_from_json model req cols sev k
  = Ok (rank_top_k (classes_ model) probs k).
Proof. intros Hv Hp. unfold predict_top_k_from_json. rewrite Hv. cbn. now rewrite Hp. Qed.

End Ranker.

(** * The claims about the encoder *)

(** C1.  On a request whose symptoms are strings, [encode_user_symptoms]
    returns a vector of length F; with no symptom it is all zeros; for each
    input symptom whose cleaned form is a feature column, the cell of that
    column (of its last position, should the name be repeated) holds the
    severity weight looked up by the original string of the last symptom
    with that cleaned form (1 when the table has no entry), which is the
    symptom itself when no other input symptom has its cleaned form; and
    every cell whose column no input symptom cleans to is 0. *)
Theorem encode_user_symptoms_spec req cols sev :
  Forall is_str (symptoms_of req) ->
  exists v,
    encode_user_symptoms req cols sev = Ok v /\
    length v = length cols /\
    (symptoms_of req = [] -> v = replicate (length cols) 0%Z) /\
    (forall s, PyStr s ∈ symptoms_of req -> clean_str s ∈ cols ->
       exists i l1 s' l2,
         cols !! i = Some (clean_str s) /\
         (forall j, cols !! j = Some (clean_str s) -> (j <= i)%nat) /\
         symptoms_of req = l1 ++ PyStr s' :: l2 /\
         clean_str s' = clean_str s /\
         (forall s'', PyStr s'' ∈ l2 -> clean_str s'' <> clean_str s) /\
         v !! i = Some (default 1%Z (sev !! s'))) /\
    (forall s, PyStr s ∈ symptoms_of req -> clean_str s ∈ cols ->
       (forall s', PyStr s' ∈ symptoms_of req -> clean_str s' = clean_str s -> s' = s) ->
       exists i, cols !! i = Some (clean_str s) /\
                 v !! i = Some (default 1%Z (sev !! s))) /\
    (NoDup cols ->
     forall s i, PyStr s ∈ symptoms_of req -> cols !! i = Some (clean_str s) ->
       exists s', PyStr s' ∈ symptoms_of req /\ clean_str s' = clean_str s /\
                  v !! i = Some (default 1%Z (sev !! s'))) /\
    (forall i, (i < length cols)%nat ->
       (forall s, PyStr s ∈ symptoms_of req -> cols !! i <> Some (clean_str s)) ->
       v !! i = Some 0%Z).
Proof.
  intros Hstr. destruct (Encoder.encode_ok req cols sev Hstr) as (v & Hv & Hlen).
  assert (forall s, PyStr s ∈ symptoms_of req -> clean_str s ∈ cols ->
            exists i l1 s' l2,
              cols !! i = Some (clean_str s) /\
              (forall j, cols !! j = Some (clean_str s) -> (j <= i)%nat) /\
              symptoms_of req = l1 ++ PyStr s' :: l2 /\
              clean_str s' = clean_str s /\
              (forall s'', PyStr s'' ∈ l2 -> clean_str s'' <> clean_str s) /\
              v !! i = Some (default 1%Z (sev !! s'))) as Hset.
  { intros s Hin Hcol. destruct (Loops.index_dict_elem _ _ Hcol) as [i Hi].
    pose proof Hi as Hpos. apply Loops.index_dict_Some in Hpos as [Hpos Hmax].
    destruct (Encoder.last_naming cols i s _ Hin Hi) as (l1 & s' & l2 & Hsplit & Hc & Hlast).
    exists i, l1, s', l2. repeat split; try assumption.
    rewrite <- Hc in Hi, Hlast. eapply Encoder.encode_at_last; eauto. }
  exists v. split; [exact Hv|]. split; [exact Hlen|].
  split; [|split; [exact Hset|split; [|split]]].
  - intros Hnil. unfold encode_user_symptoms in Hv. rewrite Hnil in Hv.
    cbn in Hv. congruence.
  - intros s Hin Hcol Huniq.
    destruct (Hset s Hin Hcol) as (i & l1 & s' & l2 & Hi & _ & Hsplit & Hc & _ & Hcell).
    exists i. split; [exact Hi|]. rewrite <- (Huniq s'); [exact Hcell| |exact Hc].
    rewrite Hsplit. apply elem_of_app. right. apply elem_of_cons. now left.
  - intros Hnd s i Hin Hi.
    destruct (Hset s Hin) as (i' & l1 & s' & l2 & Hi' & _ & Hsplit & Hc & _ & Hcell).
    { eapply list_elem_of_lookup_2, Hi. }
    rewrite (NoDup_lookup _ _ _ _ Hnd Hi Hi'). exists s'. repeat split; try assumption.
    rewrite Hsplit. apply elem_of_app. right. apply elem_of_cons. now left.
  - intros i Hlt Hno. eapply Encoder.encode_zero_unnamed; eauto.
Qed.

(** C1, witness: a symptom recognized only after cleaning, a symptom of the
    table and an unknown one.  The cell of [" Skin Rash"] holds the default
    weight 1 (the table has no key [" Skin Rash"]), the cell of ["fatigue"]
    its table weight 4, and the cell of ["itching"] stays 0. *)
Lemma encode_user_symptoms_spec_witness :
  exists v,
    encode_user_symptoms
      (request [PyStr " Skin Rash"; PyStr "fatigue"; PyStr "cough"]) ex_cols ex_sev
    = Ok v /\ length v = 3%nat /\
    v !! 0%nat = Some 0%Z /\ v !! 1%nat = Some 1%Z /\ v !! 2%nat = Some 4%Z.
Proof.
  destruct (encode_user_symptoms_spec
              (request [PyStr " Skin Rash"; PyStr "fatigue"; PyStr "cough"])
              ex_cols ex_sev)
    as (v & Hv & Hlen & _ & _ & Halone & _ & Hzero).
  - vm_compute. repeat constructor.
  - assert (forall s s0 : string,
              PyStr s ∈ symptoms_of
                (request [PyStr " Skin Rash"; PyStr "fatigue"; PyStr "cough"]) ->
              s0 = " Skin Rash" \/ s0 = "fatigue" ->
              clean_str s = clean_str s0 -> s = s0) as Huniq.
    { intros s s0 Hin Hs0 Hc. vm_compute in Hin.
      repeat (apply elem_of_cons in Hin as [Hin|Hin];
              [injection Hin as ->;
               destruct Hs0 as [-> | ->]; first [reflexivity|vm_compute in Hc; discriminate Hc]|]).
      now apply elem_of_nil in Hin. }
    exists v. split; [exact Hv|]. split; [exact Hlen|]. split; [|split].
    + apply Hzero; [cbn; lia|]. intros s Hin. vm_compute in Hin.
      repeat (apply elem_of_cons in Hin as [Hin|Hin];
              [injection Hin as ->; vm_compute; discriminate|]).
      now apply elem_of_nil in Hin.
    + destruct (Halone " Skin Rash") as (i & Hi & Hcell).
      * vm_compute. apply elem_of_cons. now left.
      * vm_compute. apply elem_of_cons. right. apply elem_of_cons. now left.
      * intros s' Hin Hc. apply (Huniq s' " Skin Rash" Hin); [now left|exact Hc].
      * destruct i as [|[|[|i]]]; vm_compute in Hi; try discriminate Hi. exact Hcell.
    + destruct (Halone "fatigue") as (i & Hi & Hcell).
      * vm_compute. apply elem_of_cons. right. apply elem_of_cons. now left.
      * vm_compute. do 2 (apply elem_of_cons; right). apply elem_of_cons. now left.
      * intros s' Hin Hc. apply (Huniq s' "fatigue" Hin); [now right|exact Hc].
      * destruct i as [|[|[|i]]]; vm_compute in Hi; try discriminate Hi. exact Hcell.
Defined.

(** C9.  A symptom string whose cleaned form is not a feature column is
    dropped: the loop body returns the vector unchanged on it without
    raising, the encoding of the request equals the encoding of the request
    without that symptom, and when the other symptoms are strings the
    encoder returns a vector. *)
Theorem unknown_symptom_dropped req req' cols sev l1 s l2 :
  symptoms_of req = l1 ++ PyStr s :: l2 ->
  symptoms_of req' = l1 ++ l2 ->
  clean_str s ∉ cols ->
  (forall v, encode_body (index_dict cols) sev v (PyStr s) = Ok v) /\
  encode_user_symptoms req cols sev = encode_user_symptoms req' cols sev /\
  (Forall is_str (l1 ++ l2) -> exists v, encode_user_symptoms req cols sev = Ok v).
Proof.
  intros Hreq Hreq' Hunk. apply Loops.index_dict_None in Hunk.
  assert (forall v, encode_body (index_dict cols) sev v (PyStr s) = Ok v) as Hbody.
  { intros v. now apply Encoder.encode_body_unknown. }
  assert (encode_user_symptoms req cols sev = encode_user_symptoms req' cols sev) as Heq.
  { unfold encode_user_symptoms. rewrite Hreq, Hreq'. now apply Loops.for_each_skip. }
  repeat split; [assumption..|].
  intros Hstr. rewrite Heq.
  destruct (Encoder.encode_ok req' cols sev) as (v & Hv & _); [now rewrite Hreq'|eauto].
Qed.

(** C9, witness: the unknown symptom of the reference scenario. *)
Lemma unknown_symptom_dropped_witness :
  encode_user_symptoms (request [PyStr "itching"; PyStr "not_a_real_symptom"]) ex_cols ex_sev
  = encode_user_symptoms (request [PyStr "itching"]) ex_cols ex_sev.
Proof.
  apply (unknown_symptom_dropped
           (request [PyStr "itching"; PyStr "not_a_real_symptom"])
           (request [PyStr "itching"]) ex_cols ex_sev
           [PyStr "itching"] "not_a_real_symptom" []).
  - reflexivity.
  - reflexivity.
  - vm_compute. intros H. repeat (apply elem_of_cons in H as [H|H]; [discriminate H|]).
    now apply elem_of_nil in H.
Defined.

(** C10.  When several input symptoms clean to the same feature column, the
    cell of that column holds the weight looked up for the last of them in
    input order, and a symptom followed by another one of the same cleaned
    form has no effect on the result. *)
Theorem last_write_wins req cols sev l1 s l2 :
  symptoms_of req = l1 ++ PyStr s :: l2 ->
  (Forall is_str (l1 ++ l2) ->
   (forall s', PyStr s' ∈ l2 -> clean_str s' <> clean_str s) ->
   forall i, index_dict cols !! clean_str s = Some i ->
     exists v, encode_user_symptoms req cols sev = Ok v /\
               v !! i = Some (default 1%Z (sev !! s))) /\
  ((exists s', PyStr s' ∈ l2 /\ clean_str s' = clean_str s) ->
   forall req', symptoms_of req' = l1 ++ l2 ->
     encode_user_symptoms req cols sev = encode_user_symptoms req' cols sev).
Proof.
  intros Hreq. split.
  - intros Hstr Hlast i Hi.
    destruct (Encoder.encode_ok req cols sev) as (v & Hv & _).
    { rewrite Hreq. apply Forall_app in Hstr as [H1 H2].
      apply Forall_app. split; [assumption|]. constructor; [exact I|assumption]. }
    exists v. split; [assumption|]. eapply Encoder.encode_at_last; eauto.
  - intros (s' & Hin & Hc) req' Hreq'.
    unfold encode_user_symptoms. rewrite Hreq, Hreq', !Loops.for_each_app.
    destruct (for_each _ _ l1) as [v1|e]; cbn [mbind result_bind]; [|reflexivity].
    cbn [for_each].
    destruct (index_dict cols !! clean_str s) as [i|] eqn:Ei.
    + rewrite (Encoder.encode_body_known _ _ _ _ _ Ei). cbn [mbind result_bind].
      symmetry. apply (Encoder.encode_loop_overwritten _ _ _ _ _ i).
      * now rewrite length_insert.
      * intros j Hj. rewrite list_lookup_insert_ne; [reflexivity|congruence].
      * apply Exists_exists. exists (PyStr s'). split; [exact Hin|].
        cbn. now rewrite Hc.
    + now rewrite (Encoder.encode_body_unknown _ _ _ _ Ei).
Qed.

(** C10, witness: ["fatigue"] and ["Fatigue"] clean to the same column; the
    weight of the later one is written. *)
Lemma last_write_wins_witness :
  exists v,
    encode_user_symptoms
      (request [PyStr "fatigue"; PyStr "Fatigue"; PyStr "itching"]) ex_cols
      (<["Fatigue" := 7%Z]> ex_sev) = Ok v /\
    v !! 2%nat = Some (default 1%Z ((<["Fatigue" := 7%Z]> ex_sev) !! "Fatigue")).
Proof.
  destruct (last_write_wins
              (request [PyStr "fatigue"; PyStr "Fatigue"; PyStr "itching"]) ex_cols
              (<["Fatigue" := 7%Z]> ex_sev) [PyStr "fatigue"] "Fatigue" [PyStr "itching"]
              eq_refl) as [H _].
  apply H.
  - repeat constructor.
  - intros s' Hs'. apply list_elem_of_singleton in Hs'. injection Hs' as ->.
    vm_compute. discriminate.
  - reflexivity.
Defined.

(** * The claims about the normalizer *)

(** C2.  [normalize_symptom] performs the four transforms and maps a
    non-string to the empty string, but the inference side does not apply
    it: [encode_user_symptoms] cleans with [strip], [lower] and the space
    replacement only, so the training-side key is the inference-side key
    after one more collapsing pass, and the two differ on
    ["dischromic _patches"], which the encoder then fails to recognize. *)
Theorem clean_symptom_misses_collapse :
  (forall s, normalize_symptom (PyStr s) = PyStr.replace (clean_str s) "__" "_") /\
  (forall s, normalize_symptom (PyStr s) = clean_str s <->
             ~ exists a b, clean_str s = (a ++ "__" ++ b)%string) /\
  normalize_symptom (PyStr "dischromic _patches") = "dischromic_patches" /\
  clean_symptom (PyStr "dischromic _patches") = Ok "dischromic__patches" /\
  encode_user_symptoms (request [PyStr "dischromic _patches"])
    ["dischromic_patches"] ∅ = Ok [0%Z] /\
  encode_user_symptoms (request [PyStr "dischromic_patches"])
    ["dischromic_patches"] ∅ = Ok [1%Z] /\
  normalize_symptom (PyInt 3) = "" /\
  clean_symptom (PyInt 3) = Raise AttributeError.
Proof.
  split; [reflexivity|]. split; [|repeat split].
  intros s. rewrite Normalizer.normalize_collapse, StrLemmas.collapse_fixed_iff.
  rewrite <- StrLemmas.has_uu_substring. now destruct (StrFacts.has_uu _).
Qed.

(** C8, counterexample.  Normalizing ["a___b"] gives ["a__b"], and
    normalizing that gives ["a_b"]. *)
Lemma normalize_not_idempotent :
  normalize_symptom (PyStr "a___b") = "a__b" /\
  normalize_symptom (PyStr (normalize_symptom (PyStr "a___b"))) = "a_b" /\
  normalize_symptom (PyStr (normalize_symptom (PyStr "a___b")))
  <> normalize_symptom (PyStr "a___b").
Proof. repeat split. discriminate. Qed.

(** C8, amended.  A second normalization leaves the result of the first
    unchanged exactly when that result contains no two adjacent
    underscores. *)
Theorem normalize_idempotent_iff s :
  normalize_symptom (PyStr (normalize_symptom (PyStr s))) = normalize_symptom (PyStr s)
  <-> ~ exists a b, normalize_symptom (PyStr s) = (a ++ "__" ++ b)%string.
Proof.
  rewrite Normalizer.normalize_twice, StrLemmas.collapse_fixed_iff.
  rewrite <- StrLemmas.has_uu_substring. now destruct (StrFacts.has_uu _).
Qed.

(** * The claims about the ranker *)

(** C6, counterexample.  With two classes and [k = -1] the ranker returns
    one prediction, not the empty sequence. *)
Lemma top_k_negative_not_empty :
  (-1 <= 0)%Z /\
  exists out, predict_top_k_from_json ex_model ex_req ex_cols ex_sev (-1) = Ok out /\
              out <> [].
Proof. split; [lia|]. eexists. split; [vm_compute; reflexivity|discriminate]. Qed.

(** C6, amended.  The ranker returns the prefix [ranking[:k]] of the full
    descending ranking: every class when [k] is at least the number [n] of
    classes, the empty sequence when [k = 0], and for a negative [k] the
    first [n - |k|] entries, which is empty only when [k <= -n]. *)
Theorem top_k_slice model req cols sev k v probs :
  encode_user_symptoms req cols sev = Ok v ->
  predict_proba model v = Ok probs ->
  length probs = length (classes_ model) ->
  exists out ranking,
    predict_top_k_from_json model req cols sev k = Ok out /\
    predict_top_k_from_json model req cols sev (Z.of_nat (length (classes_ model)))
    = Ok ranking /\
    length ranking = length (classes_ model) /\
    disease <$> ranking ≡ₚ classes_ model /\
    ((Z.of_nat (length (classes_ model)) <= k)%Z -> out = ranking) /\
    ((0 <= k)%Z -> out = take (Z.to_nat k) ranking) /\
    (k = 0%Z -> out = []) /\
    ((k < 0)%Z ->
       out = take (length (classes_ model) - Z.to_nat (- k)) ranking /\
       (out = [] <-> (k <= - Z.of_nat (length (classes_ model)))%Z)).
Proof.
  intros Hv Hp Hlen.
  exists (rank_top_k (classes_ model) probs k),
         (rank_top_k (classes_ model) probs (Z.of_nat (length (classes_ model)))).
  split; [now apply (Ranker.predict_top_k_eq _ _ _ _ _ v)|].
  split; [now apply (Ranker.predict_top_k_eq _ _ _ _ _ v)|].
  assert (length (zip (classes_ model) probs) = length (classes_ model)) as Hz.
  { rewrite length_zip_with. lia. }
  assert (length (rank_top_k (classes_ model) probs (Z.of_nat (length (classes_ model))))
          = length (classes_ model)) as Hall.
  { rewrite Ranker.rank_top_k_length by assumption.
    destruct (0 <=? _)%Z eqn:E; [lia|]. apply Z.leb_gt in E. lia. }
  split; [exact Hall|].
  split; [apply Ranker.rank_top_k_all; [assumption|lia]|].
  rewrite (Ranker.rank_top_k_prefix _ _ k), Hz.
  repeat split.
  - intros Hk. apply Numeric.slice_to_all. lia.
  - intros Hk. now apply Numeric.slice_to_nonneg.
  - intros ->. reflexivity.
  - rewrite Numeric.slice_to_neg, Hall by assumption. reflexivity.
  - intros Hnil. apply (f_equal length) in Hnil.
    rewrite Numeric.slice_to_length in Hnil.
    destruct (0 <=? k)%Z eqn:E; [apply Z.leb_le in E; lia|].
    cbn in Hnil. lia.
  - intros Hk. rewrite Numeric.slice_to_neg by assumption.
    replace (_ - _)%nat with 0%nat by lia. reflexivity.
Qed.

(** C6, witness: [k = 5] with two classes returns the full ranking. *)
Lemma top_k_slice_witness :
  exists out ranking,
    predict_top_k_from_json ex_model ex_req ex_cols ex_sev 5 = Ok out /\
    predict_top_k_from_json ex_model ex_req ex_cols ex_sev 2 = Ok ranking /\
    out = ranking.
Proof.
  destruct (top_k_slice ex_model ex_req ex_cols ex_sev 5 [1; 3; 0]%Z
              [(5 # 100)%Q; (95 # 100)%Q])
    as (out & ranking & H1 & H2 & _ & _ & H3 & _); [reflexivity..|].
  exists out, ranking. repeat split; [assumption..|]. apply H3. cbn. lia.
Defined.

(** C7, counterexample.  With two classes and [k = -1] the output has one
    entry, which exceeds [min(k, 2)] however a negative bound is read. *)
Lemma top_k_length_exceeds_min :
  exists out,
    predict_top_k_from_json ex_model ex_req ex_cols ex_sev (-1) = Ok out /\
    ~ (Z.of_nat (length out) <= Z.min (-1) (Z.of_nat (length (classes_ ex_model))))%Z /\
    ~ (length out <= Nat.min (Z.to_nat (-1)) (length (classes_ ex_model)))%nat.
Proof.
  eexists. split; [vm_compute; reflexivity|]. cbn. split; lia.
Qed.

(** C7, amended.  For [k >= 0] the output has exactly [min(k, n)] entries
    (for a negative [k] it has [n - |k|], never more than [n]); for every
    [k] the reported probabilities are non-increasing along the output and
    each is the probability of its class rounded to 4 decimal digits. *)
Theorem top_k_sorted_rounded model req cols sev k v probs :
  encode_user_symptoms req cols sev = Ok v ->
  predict_proba model v = Ok probs ->
  length probs = length (classes_ model) ->
  exists out,
    predict_top_k_from_json model req cols sev k = Ok out /\
    ((0 <= k)%Z -> length out = Nat.min (Z.to_nat k) (length (classes_ model))) /\
    ((k < 0)%Z -> length out = (length (classes_ model) - Z.to_nat (- k))%nat) /\
    (length out <= length (classes_ model))%nat /\
    StronglySorted ge_probability out /\
    Forall (fun e => exists q, (disease e, q) ∈ zip (classes_ model) probs /\
                               probability e = py_round q 4) out.
Proof.
  intros Hv Hp Hlen. exists (rank_top_k (classes_ model) probs k).
  split; [now apply (Ranker.predict_top_k_eq _ _ _ _ _ v)|].
  pose proof (Ranker.rank_top_k_length (classes_ model) probs k Hlen) as HL.
  repeat split.
  - intros Hk. apply Z.leb_le in Hk. now rewrite Hk in HL.
  - intros Hk. apply Z.leb_gt in Hk. now rewrite Hk in HL.
  - destruct (0 <=? k)%Z; lia.
  - apply Ranker.rank_top_k_sorted.
  - apply Ranker.rank_top_k_entries.
Qed.

(** C7, witness: [k = 1] with two classes. *)
Lemma top_k_sorted_rounded_witness :
  exists out,
    predict_top_k_from_json ex_model ex_req ex_cols ex_sev 1 = Ok out /\
    length out = 1%nat /\ StronglySorted ge_probability out.
Proof.
  destruct (top_k_sorted_rounded ex_model ex_req ex_cols ex_sev 1 [1; 3; 0]%Z
              [(5 # 100)%Q; (95 # 100)%Q])
    as (out & H1 & H2 & _ & _ & H3 & _); [reflexivity..|].
  exists out. repeat split; [assumption| |assumption]. apply H2. lia.
Defined.

(** * The claims about the contribution analyzer *)



(** C4.  The rescaling, in floating point with any arithmetic [A] whose
    roundings keep the order and fix 0, 1 and 100 (CPython's and NumPy's
    do): it divides by one reference value for the whole result set, the
    largest raw score over all diseases and symptoms together, or 1 when
    there is no score; every raw score has an entry, which is 0 when that
    reference is not positive and otherwise the quotient of the raw score
    by the reference, times 100, rounded to 2 digits.  With non-negative
    severity weights every scaled value lies in [0, 100], and when some raw
    score is positive some entry is scaled to 100. *)
Theorem scaled_contributions_bounded A model req preds cols sev final :
  rounding_ok A ->
  calculate_symptom_contributions_fl A model req preds cols sev = Ok final ->
  (forall s w, sev !! s = Some w -> (0 <= w)%Z) ->
  exists R,
    raw_impact_fl A model req preds cols sev = Ok R /\
    (all_scores R = [] -> highest_impact R = 1%Q) /\
    (all_scores R <> [] -> highest_impact R ∈ all_scores R) /\
    (forall q, q ∈ all_scores R -> (q <= highest_impact R)%Q) /\
    (forall d ds s score, R !! d = Some ds -> ds !! s = Some score ->
       (score <= highest_impact R)%Q /\
       exists row e, final !! d = Some row /\ row !! s = Some e) /\
    (forall d row s e, final !! d = Some row -> row !! s = Some e ->
       exists ds score,
         R !! d = Some ds /\ ds !! s = Some score /\
         ((highest_impact R <= 0)%Q -> scaled e = 0%Q) /\
         ((0 < highest_impact R)%Q ->
            scaled e
            = round_to A (fl A (fl A (score / highest_impact R) * 100))%Q 2) /\
         (0 <= scaled e <= 100)%Q) /\
    ((exists q, q ∈ all_scores R /\ (0 < q)%Q) ->
     exists d row s e,
       final !! d = Some row /\ row !! s = Some e /\ (scaled e == 100)%Q).
Proof.
  intros HA Hfinal Hw. apply AnalyzerFl.calculate_fl_inv in Hfinal as (R & HR & ->).
  destruct (AnalyzerFl.rescaling_spec A HA R) as (Hexist & Hentry & Htop).
  { intros q Hq. eapply AnalyzerFl.raw_impact_fl_nonneg; eauto. }
  exists R. split; [assumption|].
  split; [apply Analyzer.highest_impact_empty|].
  split; [apply Analyzer.highest_impact_elem|].
  split; [apply Analyzer.highest_impact_ge|].
  split; [|split; assumption].
  intros d ds s score Hd Hs. split; [|eauto].
  apply Analyzer.highest_impact_ge, Analyzer.elem_of_all_scores. eauto.
Qed.

(** C4, witness: the reference scenario in binary64.  The raw scores are
    0.75 for the rash and about 0.05 for the itching; the reference is 0.75,
    the entry of the rash is scaled to 100 and that of the itching to
    6.67. *)
Lemma scaled_contributions_bounded_witness :
  exists row e1 e2,
    ex_final64 !! "FungalInfection" = Some row /\
    row !! "skin_rash" = Some e1 /\ row !! "itching" = Some e2 /\
    (scaled e1 == 100)%Q /\ (scaled e2 == fl64 (667 # 100))%Q.
Proof.
  destruct (scaled_contributions_bounded python_float ex_model64 ex_req [ex_pred]
              ex_cols ex_sev ex_final64 Binary64.python_float_ok
              Scenario64.ex_final64_computed Scenario64.ex_sev_nonneg)
    as (R & HR & _ & _ & _ & Hexist & Hentry & _).
  rewrite Scenario64.ex_raw64_computed in HR. injection HR as <-.
  pose proof Scenario64.ex_raw64_row as Hds.
  destruct (Hexist _ _ "skin_rash" _ Hds eq_refl) as (_ & row & e1 & Hrow & He1).
  destruct (Hexist _ _ "itching" _ Hds eq_refl) as (_ & row' & e2 & Hrow' & He2).
  rewrite Hrow in Hrow'. apply (inj Some) in Hrow'. subst row'.
  exists row, e1, e2. split; [exact Hrow|]. split; [exact He1|]. split; [exact He2|].
  assert (0 < highest_impact ex_raw64)%Q as Hpos by (vm_compute; reflexivity).
  split.
  - destruct (Hentry _ _ _ _ Hrow He1) as (ds' & score' & Hd' & Hs' & _ & Hval & _).
    rewrite Hds in Hd'. apply (inj Some) in Hd'. subst ds'.
    change (Some (fl64 (3 # 4)) = Some score') in Hs'.
    apply (inj Some) in Hs'. subst score'.
    rewrite (Hval Hpos). vm_compute. reflexivity.
  - destruct (Hentry _ _ _ _ Hrow He2) as (ds' & score' & Hd' & Hs' & _ & Hval & _).
    rewrite Hds in Hd'. apply (inj Some) in Hd'. subst ds'.
    change (Some (fl64 (fl64 (95 # 100) - fl64 (90 # 100))) = Some score') in Hs'.
    apply (inj Some) in Hs'. subst score'.
    rewrite (Hval Hpos). vm_compute. reflexivity.
Defined.

(** The reference is global: against the largest score of the whole table,
    0.75, the only score of the other disease, 0.25, is scaled to 33.33 and
    not to 100. *)
Example rescaling_is_global :
  scaled <$> (scale_contributions_fl python_float ex_scores !! "Flu"
              ≫= lookup "itching")
  = Some (fl64 (3333 # 100)) /\
  scaled <$> (scale_contributions_fl python_float ex_scores !! "FungalInfection"
              ≫= lookup "skin_rash")
  = Some (fl64 100).
Proof. split; vm_compute; reflexivity. Qed.

(** The float arithmetic matters: with a raw score of 0.49 and a reference
    of 40 the exact percentage is 1.225, which rounds to 1.22, but the
    binary64 product is slightly above 1.225 and the analysis reports
    1.23, with CPython's [round] and with NumPy's. *)
Example binary64_percentage :
  (scaled (scale_entry 40 (49 # 100)) == 122 # 100)%Q /\
  (scaled (scale_entry_fl python_float 40 (fl64 (49 # 100))) == fl64 (123 # 100))%Q /\
  (scaled (scale_entry_fl numpy_float64 40 (fl64 (49 # 100))) == fl64 (123 # 100))%Q.
Proof. repeat split; vm_compute; reflexivity. Qed.

(** C5, counterexample.  The encoder recognizes ["Itching"] (it cleans to
    the column ["itching"] and sets its cell), but the analysis for the
    predicted disease has no entry for it. *)
Lemma capitalised_symptom_gets_no_entry :
  clean_symptom (PyStr "Itching") = Ok "itching" /\
  index_dict ex_cols !! "itching" = Some 0%nat /\
  encode_user_symptoms (request [PyStr "Itching"]) ex_cols ex_sev = Ok [1; 0; 0]%Z /\
  exists final,
    calculate_symptom_contributions ex_model (request [PyStr "Itching"]) [ex_pred]
      ex_cols ex_sev = Ok final /\
    final !! "FungalInfection" = Some ∅.
Proof.
  repeat split. eexists. split; vm_compute; reflexivity.
Qed.

(** C5, amended.  On a well-typed request, with a classifier that answers
    every vector of the trained dimension and predictions taken from its
    classes, the analysis has a row for every predicted disease and for no
    other, and each row has an entry for exactly those input symptoms whose
    string, as given, is a feature column. *)
Theorem contribution_entries_raw_columns model req preds cols sev :
  Forall is_str (symptoms_of req) ->
  classifier_ok model (length cols) ->
  (forall pred, pred ∈ preds -> disease pred ∈ classes_ model) ->
  exists final,
    calculate_symptom_contributions model req preds cols sev = Ok final /\
    (forall d, is_Some (final !! d) <-> exists pred, pred ∈ preds /\ disease pred = d) /\
    (forall d row, final !! d = Some row ->
       forall s, is_Some (row !! s) <-> PyStr s ∈ symptoms_of req /\ s ∈ cols).
Proof.
  intros Hstr Hok Hpreds.
  destruct (Analyzer.raw_impact_ok model req preds cols sev Hstr Hok Hpreds) as [R HR].
  exists (scale_contributions R). split.
  { unfold calculate_symptom_contributions. now rewrite HR. }
  destruct (Analyzer.raw_impact_inv _ _ _ _ _ _ HR) as (bv & p0 & _ & _ & Hrow & Hcov).
  unfold scale_contributions. split.
  - intros d. rewrite lookup_fmap, fmap_is_Some. split.
    + intros [ds Hd]. now destruct (Hrow _ _ Hd).
    + intros (pred & Hin & <-). now apply Hcov.
  - intros d row. rewrite lookup_fmap_Some. intros (ds & <- & Hd) s.
    rewrite lookup_fmap, fmap_is_Some.
    destruct (Hrow _ _ Hd) as [_ (d_idx & bp & _ & _ & Hloop)].
    rewrite (Analyzer.symptom_loop_dom _ _ _ _ _ _ _ _ _ Hloop).
    split; intros [Hin Hc]; (split; [assumption|]).
    + destruct Hc as [i Hi]. eapply list_elem_of_lookup_2, Loops.index_dict_lookup, Hi.
    + now apply Loops.index_dict_elem.
Qed.

(** C5, witness: the reference scenario. *)
Lemma contribution_entries_raw_columns_witness :
  exists final,
    calculate_symptom_contributions ex_model ex_req [ex_pred] ex_cols ex_sev = Ok final.
Proof.
  destruct (contribution_entries_raw_columns ex_model ex_req [ex_pred] ex_cols ex_sev)
    as (final & H & _).
  - vm_compute. repeat constructor.
  - apply Analyzer.ex_model_ok.
  - intros pred Hin. apply list_elem_of_singleton in Hin. subst pred.
    cbn. apply elem_of_cons. right. apply elem_of_cons. now left.
  - exists final. exact H.
Defined.

(** * The reference scenarios *)

(** One known symptom: the encoded vector and the top prediction. *)
Example scenario_single_symptom :
  encode_user_symptoms (request [PyStr "itching"]) ex_cols ex_sev = Ok [1; 0; 0]%Z /\
  predict_top_k_from_json ex_model (request [PyStr "itching"]) ex_cols ex_sev 1
  = Ok [{| disease := "FungalInfection"; probability := (7 # 10)%Q |}].
Proof. split; vm_compute; reflexivity. Qed.

(** Two symptoms: raw scores 0.75 and 0.05, scaled to 100 and 6.67. *)
Example scenario_two_symptoms :
  calculate_symptom_contributions ex_model ex_req [ex_pred] ex_cols ex_sev = Ok ex_final.
Proof. apply Analyzer.ex_final_computed. Qed.

(** An unknown symptom: the vector is all zeros and prediction proceeds. *)
Example scenario_unknown_symptom :
  encode_user_symptoms (request [PyStr "not_a_real_symptom"]) ex_cols ex_sev
  = Ok [0; 0; 0]%Z /\
  exists out,
    predict_top_k_from_json ex_model (request [PyStr "not_a_real_symptom"])
      ex_cols ex_sev 5 = Ok out.
Proof. split; [reflexivity|]. eexists. vm_compute. reflexivity. Qed.

(** A symptom that is not a string makes the encoder raise. *)
Example scenario_non_string :
  encode_user_symptoms (request [PyStr "itching"; PyInt 3]) ex_cols ex_sev
  = Raise AttributeError.
Proof. reflexivity. Qed.

(** * Further properties of the normalizer and of the cleaning *)

Module StrMore.
Import PyStr StrFacts StrLemmas.

Lemma map_chars_length f s : String.length (map_chars f s) = String.length s.
Proof. induction s as [|c r IH]; cbn; [reflexivity|now rewrite IH]. Qed.

Lemma lstrip_length s : (String.length (lstrip s) <= String.length s)%nat.
Proof.
  induction s as [|c r IH]; cbn; [lia|]. destruct (isspace c); cbn; lia.
Qed.

Lemma rstrip_length s : (String.length (rstrip s) <= String.length s)%nat.
Proof.
  induction s as [|c r IH]; cbn [rstrip]; [cbn; lia|].
  destruct (rstrip r) as [|a b]; [destruct (isspace c)|]; cbn in *; lia.
Qed.

Lemma strip_length s : (String.length (strip s) <= String.length s)%nat.
Proof.
  unfold strip. pose proof (lstrip_length (rstrip s)). pose proof (rstrip_length s). lia.
Qed.

Lemma clean_str_length s : (String.length (clean_str s) <= String.length s)%nat.
Proof.
  rewrite Normalizer.clean_str_map, !map_chars_length. apply strip_length.
Qed.

Lemma all_chars_middle (P : ascii -> Prop) a c b :
  all_chars P (a ++ String c b)%string -> P c.
Proof. induction a as [|x a IH]; cbn; intros [? ?]; auto. Qed.

Lemma settled_not_space : ~ settled " "%char.
Proof. intros [_ H]. discriminate H. Qed.

Lemma normalize_settled s : all_chars settled (normalize_symptom (PyStr s)).
Proof.
  rewrite Normalizer.normalize_collapse. apply collapse_all_chars.
  apply Normalizer.clean_str_shape.
Qed.

End StrMore.

(** The cleaning applied at inference is idempotent (unlike the training
    normalizer). *)
Theorem clean_str_idempotent s : clean_str (clean_str s) = clean_str s.
Proof.
  destruct (Normalizer.clean_str_shape s) as (Hh & Hl & Hs).
  now apply Normalizer.clean_str_id.
Qed.

(** A normalized key has no surrounding whitespace, is unchanged by
    lower-casing, contains no space character, and is no longer than the
    stripped and lower-cased raw string. *)
Theorem normalize_symptom_shape s :
  PyStr.strip (normalize_symptom (PyStr s)) = normalize_symptom (PyStr s) /\
  PyStr.lower (normalize_symptom (PyStr s)) = normalize_symptom (PyStr s) /\
  (forall a b, normalize_symptom (PyStr s) <> (a ++ " " ++ b)%string) /\
  (String.length (normalize_symptom (PyStr s))
   <= String.length (PyStr.lower (PyStr.strip s)))%nat.
Proof.
  pose proof (StrMore.normalize_settled s) as Hs.
  destruct (Normalizer.clean_str_shape s) as (Hh & Hl & _).
  rewrite Normalizer.normalize_collapse in *.
  repeat split.
  - apply StrLemmas.strip_id;
      [now apply StrLemmas.collapse_head_ok|now apply StrLemmas.collapse_last_ok].
  - apply StrLemmas.map_chars_id. eapply StrLemmas.all_chars_impl, Hs. now intros c [? _].
  - intros a b Heq. rewrite Heq in Hs.
    apply StrMore.all_chars_middle in Hs. now apply StrMore.settled_not_space.
  - pose proof (StrLemmas.collapse_length (clean_str s)) as Hc.
    rewrite Normalizer.clean_str_map, StrMore.map_chars_length in Hc.
    rewrite Normalizer.clean_str_map. exact Hc.
Qed.

(** The training normalizer absorbs the inference cleaning, and the
    inference cleaning leaves a normalized key unchanged. *)
Theorem normalize_absorbs_cleaning s :
  normalize_symptom (PyStr (clean_str s)) = normalize_symptom (PyStr s) /\
  clean_str (normalize_symptom (PyStr s)) = normalize_symptom (PyStr s).
Proof.
  split; [|apply Normalizer.clean_str_normalize].
  rewrite !Normalizer.normalize_collapse. f_equal.
  destruct (Normalizer.clean_str_shape s) as (Hh & Hl & Hs).
  now apply Normalizer.clean_str_id.
Qed.

(** * Further properties of the encoder *)

Module EncoderMore.
Import Loops Encoder.

#[local] Arguments encode_body : simpl never.

Section Body.
Variables (fi : gmap string nat) (sev : gmap string Z).

(** The first symptom that is not a string aborts the loop. *)
Lemma encode_loop_raises v l :
  Exists (fun x => ~ is_str x) l ->
  for_each (encode_body fi sev) v l = Raise AttributeError.
Proof.
  revert v. induction l as [|x l IH]; intros v HE; [inversion HE|].
  cbn [for_each]. destruct x as [s| |]; [|reflexivity..].
  assert (Exists (fun x => ~ is_str x) l) as Hl.
  { inversion HE as [? ? Hx|]; subst; [|assumption]. now destruct Hx. }
  destruct (fi !! clean_str s) as [i|] eqn:E.
  - rewrite (encode_body_known _ _ _ _ _ E). cbn. now apply IH.
  - rewrite (encode_body_unknown _ _ _ _ E). cbn. now apply IH.
Qed.

Lemma encode_loop_strings v l v' :
  for_each (encode_body fi sev) v l = Ok v' -> Forall is_str l.
Proof.
  intros H. destruct (decide (Forall is_str l)) as [|Hn]; [assumption|].
  apply not_Forall_Exists in Hn; [|apply _].
  rewrite (encode_loop_raises v l) in H; [discriminate|].
  eapply Exists_impl; [exact Hn|]. auto.
Qed.

(** Dropping the symptoms that name cell [i] changes no other cell. *)
Lemma encode_loop_filter i l (v0 w0 v w : list Z) :
  length v0 = length w0 ->
  (forall j, j <> i -> v0 !! j = w0 !! j) ->
  for_each (encode_body fi sev) v0 l = Ok v ->
  for_each (encode_body fi sev) w0
    (filter (fun x => ~ names_dim fi i x) l) = Ok w ->
  forall j, j <> i -> v !! j = w !! j.
Proof.
  revert v0 w0. induction l as [|x l IH]; intros v0 w0 Hlen Hag; cbn [for_each].
  - rewrite filter_nil. cbn. intros [= <-] [= <-]. exact Hag.
  - destruct (encode_body fi sev v0 x) as [v1|e] eqn:E; [|discriminate]. cbn.
    intros Hv Hw.
    apply encode_body_cases in E as (s & -> & [[Hn ->]|(k & Hk & ->)]).
    + rewrite decide_True in Hw by (cbn; congruence).
      cbn [for_each] in Hw. rewrite (encode_body_unknown _ _ _ _ Hn) in Hw.
      cbn in Hw. eapply IH; eauto.
    + destruct (decide (k = i)) as [->|Hne].
      * rewrite decide_False in Hw by (cbn; tauto).
        eapply (IH _ w0); [| |eassumption..].
        -- now rewrite length_insert.
        -- intros j Hj. rewrite list_lookup_insert_ne by congruence. now apply Hag.
      * rewrite decide_True in Hw by (cbn; congruence).
        cbn [for_each] in Hw. rewrite (encode_body_known _ _ _ _ _ Hk) in Hw.
        cbn in Hw. eapply (IH _ _ _ _ Hv Hw). Unshelve.
        -- now rewrite !length_insert.
        -- intros j Hj. rewrite !list_lookup_insert, Hlen.
           case_decide; [reflexivity|]. now apply Hag.
Qed.

End Body.

End EncoderMore.

(** A symptom that is not a string makes the encoder raise
    [AttributeError], whatever the other symptoms, the feature columns and
    the table are; the ranker and the analyzer, which encode first, raise
    the same exception for every classifier. *)
Theorem non_string_symptom_raises model req preds cols sev k :
  Exists (fun x => ~ is_str x) (symptoms_of req) ->
  encode_user_symptoms req cols sev = Raise AttributeError /\
  predict_top_k_from_json model req cols sev k = Raise AttributeError /\
  calculate_symptom_contributions model req preds cols sev = Raise AttributeError.
Proof.
  intros HE.
  assert (encode_user_symptoms req cols sev = Raise AttributeError) as Henc.
  { unfold encode_user_symptoms. now apply EncoderMore.encode_loop_raises. }
  split; [exact Henc|]. split.
  - unfold predict_top_k_from_json. now rewrite Henc.
  - unfold calculate_symptom_contributions, raw_impact. now rewrite Henc.
Qed.

(** Witness: a number among the symptoms. *)
Lemma non_string_symptom_raises_witness :
  encode_user_symptoms (request [PyStr "itching"; PyInt 3]) ex_cols ex_sev
  = Raise AttributeError.
Proof.
  apply (non_string_symptom_raises ex_model (request [PyStr "itching"; PyInt 3])
           [ex_pred] ex_cols ex_sev 5).
  vm_compute. apply Exists_cons_tl, Exists_cons_hd. intros H. exact H.
Defined.

(** The encoder returns a vector exactly when every symptom is a string. *)
Theorem encode_succeeds_iff req cols sev :
  (exists v, encode_user_symptoms req cols sev = Ok v) <->
  Forall is_str (symptoms_of req).
Proof.
  split.
  - intros [v Hv]. eapply EncoderMore.encode_loop_strings, Hv.
  - intros H. destruct (Encoder.encode_ok req cols sev H) as (v & Hv & _). eauto.
Qed.

(** Setting cell [i] of the encoded vector to 0, as the leave-one-out
    experiment does, gives the encoding of the request without the symptoms
    that clean to column [i]. *)
Theorem leave_one_out_is_reencoding req req' cols sev v i :
  encode_user_symptoms req cols sev = Ok v ->
  symptoms_of req' =
    filter (fun x => ~ names_dim (index_dict cols) i x) (symptoms_of req) ->
  encode_user_symptoms req' cols sev = Ok (<[i := 0%Z]> v).
Proof.
  intros Hv Hreq'.
  pose proof (EncoderMore.encode_loop_strings _ _ _ _ _ Hv) as Hstr.
  destruct (Encoder.encode_ok req' cols sev) as (w & Hw & Hwlen).
  { rewrite Hreq'. rewrite Forall_forall in Hstr |- *. intros x Hx.
    apply list_elem_of_filter in Hx as [_ Hx]. now apply Hstr. }
  rewrite Hw. f_equal. pose proof (Encoder.encode_length _ _ _ _ Hv) as Hvlen.
  apply list_eq. intros j. destruct (decide (j = i)) as [->|Hne].
  - unfold encode_user_symptoms in Hw. rewrite Hreq' in Hw.
    rewrite (Encoder.encode_loop_untouched _ _ _ _ _ i Hw).
    + rewrite list_lookup_insert, Hvlen. case_decide as Hc.
      * apply lookup_replicate_2. lia.
      * rewrite lookup_ge_None_2 by (rewrite length_replicate; lia).
        symmetry. apply lookup_ge_None_2. lia.
    + apply Forall_forall. intros x Hx. now apply list_elem_of_filter in Hx as [Hx _].
  - rewrite list_lookup_insert_ne by congruence. symmetry.
    unfold encode_user_symptoms in Hv, Hw. rewrite Hreq' in Hw.
    eapply (EncoderMore.encode_loop_filter _ _ i); [| |exact Hv|exact Hw|exact Hne];
      auto.
Qed.

(** Witness: zeroing the cell of ["skin_rash"] in the reference request. *)
Lemma leave_one_out_is_reencoding_witness :
  encode_user_symptoms (request [PyStr "itching"]) ex_cols ex_sev
  = Ok (<[1%nat := 0%Z]> [1; 3; 0]%Z).
Proof.
  apply (leave_one_out_is_reencoding ex_req (request [PyStr "itching"])
           ex_cols ex_sev [1; 3; 0]%Z 1); reflexivity.
Defined.

(** The encoded vector does not depend on the order of the symptoms when
    symptoms that clean to the same name carry the same weight (in
    particular when no two symptoms clean to the same name). *)
Theorem encode_order_irrelevant req req' cols sev :
  Forall is_str (symptoms_of req) ->
  symptoms_of req ≡ₚ symptoms_of req' ->
  (forall s1 s2, PyStr s1 ∈ symptoms_of req -> PyStr s2 ∈ symptoms_of req ->
     clean_str s1 = clean_str s2 ->
     default 1%Z (sev !! s1) = default 1%Z (sev !! s2)) ->
  encode_user_symptoms req cols sev = encode_user_symptoms req' cols sev.
Proof.
  intros Hstr Hperm Hsame.
  assert (Forall is_str (symptoms_of req')) as Hstr' by now rewrite <- Hperm.
  destruct (Encoder.encode_ok req cols sev Hstr) as (v & Hv & Hlen).
  destruct (Encoder.encode_ok req' cols sev Hstr') as (w & Hw & Hlen').
  rewrite Hv, Hw. f_equal. apply list_eq. intros j.
  destruct (decide (Exists (names_dim (index_dict cols) j) (symptoms_of req)))
    as [HE|HN].
  - assert (Exists (names_dim (index_dict cols) j) (symptoms_of req')) as HE'
      by now rewrite <- Hperm.
    apply Loops.last_split in HE as (l1 & x & l2 & Hs & Hx & Hl2); [|apply _].
    apply Loops.last_split in HE' as (l1' & x' & l2' & Hs' & Hx' & Hl2'); [|apply _].
    destruct x as [s| |]; [|contradiction..].
    destruct x' as [s'| |]; [|contradiction..]. cbn in Hx, Hx'.
    unfold encode_user_symptoms in Hv, Hw. rewrite Hs in Hv. rewrite Hs' in Hw.
    assert (j < length cols)%nat as Hj by (eapply Loops.index_dict_lt, Hx).
    rewrite (Encoder.encode_loop_last _ _ _ _ _ _ _ _ Hv Hx), 
            (Encoder.encode_loop_last _ _ _ _ _ _ _ _ Hw Hx');
      try assumption; try (rewrite length_replicate; exact Hj).
    f_equal. apply Hsame.
    + rewrite Hs. apply elem_of_app. right. apply elem_of_cons. now left.
    + rewrite Hperm, Hs'. apply elem_of_app. right. apply elem_of_cons. now left.
    + apply Loops.index_dict_lookup in Hx, Hx'. congruence.
  - assert (~ Exists (names_dim (index_dict cols) j) (symptoms_of req')) as HN'
      by now rewrite <- Hperm.
    apply not_Exists_Forall in HN, HN'; try apply _.
    unfold encode_user_symptoms in Hv, Hw.
    now rewrite (Encoder.encode_loop_untouched _ _ _ _ _ j Hv),
                (Encoder.encode_loop_untouched _ _ _ _ _ j Hw).
Qed.

(** Witness: the reference request and its reversal. *)
Lemma encode_order_irrelevant_witness :
  encode_user_symptoms ex_req ex_cols ex_sev
  = encode_user_symptoms (request [PyStr "skin_rash"; PyStr "itching"]) ex_cols ex_sev.
Proof.
  apply (encode_order_irrelevant ex_req
           (request [PyStr "skin_rash"; PyStr "itching"]) ex_cols ex_sev).
  - vm_compute. repeat constructor.
  - apply Permutation_swap.
  - intros s1 s2 H1 H2.
    apply elem_of_cons in H1 as [[= ->]|H1];
      [|apply list_elem_of_singleton in H1; injection H1 as ->];
    (apply elem_of_cons in H2 as [[= ->]|H2];
      [|apply list_elem_of_singleton in H2; injection H2 as ->]);
    vm_compute; congruence.
Defined.

(** With positive severity weights every cell of the encoded vector is
    non-negative, and a cell is positive exactly when some input symptom
    cleans to the name mapped to it. *)
Theorem encoded_cells_sign req cols sev v i w :
  (forall s x, sev !! s = Some x -> (0 < x)%Z) ->
  encode_user_symptoms req cols sev = Ok v ->
  v !! i = Some w ->
  (0 <= w)%Z /\
  ((0 < w)%Z <->
   exists s, PyStr s ∈ symptoms_of req /\ index_dict cols !! clean_str s = Some i).
Proof.
  intros Hpos Hv Hi.
  assert (forall s, 0 < default 1%Z (sev !! s))%Z as Hw.
  { intros s. destruct (sev !! s) as [x|] eqn:E; cbn; [eauto|lia]. }
  destruct (decide (Exists (names_dim (index_dict cols) i) (symptoms_of req)))
    as [HE|HN].
  - pose proof HE as HE'.
    apply Loops.last_split in HE as (l1 & x & l2 & Hs & Hx & Hl2); [|apply _].
    destruct x as [s| |]; [|contradiction..]. cbn in Hx.
    unfold encode_user_symptoms in Hv. rewrite Hs in Hv.
    rewrite (Encoder.encode_loop_last _ _ _ _ _ _ _ _ Hv Hx) in Hi;
      [|rewrite length_replicate; eapply Loops.index_dict_lt, Hx|assumption].
    injection Hi as <-. specialize (Hw s). split; [lia|]. split; [|lia].
    intros _. exists s. split; [|exact Hx].
    rewrite Hs. apply elem_of_app. right. apply elem_of_cons. now left.
  - pose proof HN as HN'. apply not_Exists_Forall in HN; [|apply _].
    unfold encode_user_symptoms in Hv.
    rewrite (Encoder.encode_loop_untouched _ _ _ _ _ i Hv HN) in Hi.
    apply lookup_replicate in Hi as [-> _]. split; [lia|]. split; [lia|].
    intros (s & Hin & Hs). exfalso. apply HN'. apply Exists_exists.
    exists (PyStr s). split; assumption.
Qed.

(** Witness: the cell of ["skin_rash"] in the reference request. *)
Lemma encoded_cells_sign_witness :
  (0 <= 3)%Z /\
  ((0 < 3)%Z <->
   exists s, PyStr s ∈ symptoms_of ex_req /\
             index_dict ex_cols !! clean_str s = Some 1%nat).
Proof.
  apply (encoded_cells_sign ex_req ex_cols ex_sev [1; 3; 0]%Z 1 3).
  - intros s x. unfold ex_sev. rewrite !lookup_insert_Some, lookup_empty.
    intros H. decompose [and or] H; subst; first [lia|discriminate].
  - reflexivity.
  - reflexivity.
Defined.

(** * Further properties of the ranker *)

Module RankerMore.
Import Numeric Ranker.
Local Open Scope Q_scope.

Lemma Qle_bool_false x y : Qle_bool x y = false -> y < x.
Proof.
  intros E. apply Qnot_le_lt. intros H. apply Qle_bool_iff in H. congruence.
Qed.

(** Inserting keeps the relative order of the pairs of any one key. *)
Lemma filter_insert_desc q x l :
  filter (fun dp : string * Q => dp.2 == q) (insert_desc x l)
  = filter (fun dp : string * Q => dp.2 == q) (x :: l).
Proof.
  induction l as [|y l IH]; [reflexivity|]. cbn [insert_desc].
  destruct (Qle_bool y.2 x.2) eqn:E; [reflexivity|].
  apply Qle_bool_false in E.
  rewrite (filter_cons _ y), IH, !(filter_cons _ x), (filter_cons _ y).
  destruct (decide (x.2 == q)) as [Hx|Hx]; [|reflexivity].
  destruct (decide (y.2 == q)) as [Hy|Hy]; [|reflexivity].
  rewrite Hx, Hy in E. now apply Qlt_irrefl in E.
Qed.

(** The head of the sorted list carries the largest key. *)
Lemma sorted_desc_head l x l' :
  sorted_desc l = x :: l' -> Forall (fun dp => dp.2 <= x.2) l.
Proof.
  intros H. pose proof (sorted_desc_sorted l) as Hs. rewrite H in Hs.
  inversion Hs as [|? ? _ Hx]; subst.
  rewrite <- (sorted_desc_perm l), H. constructor; [apply Qle_refl|exact Hx].
Qed.

Lemma zip_fst_sublist (classes : list string) (probs : list Q) :
  (zip classes probs).*1 `sublist_of` classes.
Proof.
  revert probs. induction classes as [|c classes IH]; intros [|p probs]; cbn.
  - constructor.
  - constructor.
  - apply sublist_nil_l.
  - apply sublist_skip, IH.
Qed.

Lemma rank_top_k_diseases classes probs k :
  exists l, disease <$> rank_top_k classes probs k `sublist_of` l /\
            l ≡ₚ (zip classes probs).*1.
Proof.
  exists ((sorted_desc (zip classes probs)).*1). split.
  - unfold rank_top_k. rewrite <- list_fmap_compose.
    change (disease ∘ format_prediction) with (@fst string Q).
    unfold slice_to. destruct (0 <=? k)%Z; rewrite fmap_take; apply sublist_take.
  - now rewrite sorted_desc_perm.
Qed.

End RankerMore.

(** The ranking is stable: the pairs of any one probability come out of the
    sort in the order of the classifier's class list, so ties are broken by
    class position. *)
Theorem ranking_is_stable classes probs q :
  filter (fun dp : string * Q => (dp.2 == q)%Q) (sorted_desc (zip classes probs))
  = filter (fun dp : string * Q => (dp.2 == q)%Q) (zip classes probs).
Proof.
  induction (zip classes probs) as [|x l IH]; [reflexivity|].
  cbn [sorted_desc foldr]. rewrite RankerMore.filter_insert_desc, !(filter_cons _ x).
  fold (sorted_desc l). now rewrite IH.
Qed.

(** For [0 <= k <= k'] the top-[k] list is the first [k] entries of the
    top-[k'] list. *)
Theorem top_k_is_prefix model req cols sev k k' v probs :
  encode_user_symptoms req cols sev = Ok v ->
  predict_proba model v = Ok probs ->
  (0 <= k <= k')%Z ->
  exists out out',
    predict_top_k_from_json model req cols sev k = Ok out /\
    predict_top_k_from_json model req cols sev k' = Ok out' /\
    out = take (Z.to_nat k) out'.
Proof.
  intros Hv Hp Hk.
  exists (rank_top_k (classes_ model) probs k), (rank_top_k (classes_ model) probs k').
  split; [now apply (Ranker.predict_top_k_eq _ _ _ _ _ v)|].
  split; [now apply (Ranker.predict_top_k_eq _ _ _ _ _ v)|].
  unfold rank_top_k. rewrite !Numeric.slice_to_nonneg by lia.
  rewrite <- fmap_take, take_take. do 2 f_equal. lia.
Qed.

(** Witness: top-1 against top-2 in the reference scenario. *)
Lemma top_k_is_prefix_witness :
  exists out out',
    predict_top_k_from_json ex_model ex_req ex_cols ex_sev 1 = Ok out /\
    predict_top_k_from_json ex_model ex_req ex_cols ex_sev 2 = Ok out' /\
    out = take (Z.to_nat 1) out'.
Proof.
  apply (top_k_is_prefix ex_model ex_req ex_cols ex_sev 1 2 [1; 3; 0]%Z
           [(5 # 100)%Q; (95 # 100)%Q]); [reflexivity..|lia].
Defined.

(** With [k >= 1] and at least one class the first prediction is a class of
    largest probability: no class has a larger probability, nor a larger
    reported (rounded) one. *)
Theorem top_prediction_is_argmax model req cols sev k v probs :
  encode_user_symptoms req cols sev = Ok v ->
  predict_proba model v = Ok probs ->
  zip (classes_ model) probs <> [] ->
  (1 <= k)%Z ->
  exists e rest q0,
    predict_top_k_from_json model req cols sev k = Ok (e :: rest) /\
    (disease e, q0) ∈ zip (classes_ model) probs /\
    probability e = py_round q0 4 /\
    forall d q, (d, q) ∈ zip (classes_ model) probs ->
      (q <= q0)%Q /\ (py_round q 4 <= probability e)%Q.
Proof.
  intros Hv Hp Hne Hk.
  rewrite (Ranker.predict_top_k_eq _ _ _ _ _ v probs Hv Hp). unfold rank_top_k.
  destruct (sorted_desc (zip (classes_ model) probs)) as [|[d0 q0] l'] eqn:Hs.
  { exfalso. apply Hne. apply Permutation_nil_r.
    rewrite <- (Numeric.sorted_desc_perm (zip (classes_ model) probs)), Hs.
    reflexivity. }
  rewrite Numeric.slice_to_nonneg by lia.
  destruct (Z.to_nat k) as [|n] eqn:En; [lia|]. cbn [take fmap list_fmap].
  eexists _, _, q0. split; [reflexivity|]. cbn. split; [|split; [reflexivity|]].
  - rewrite <- (Numeric.sorted_desc_perm (zip (classes_ model) probs)), Hs.
    apply elem_of_cons. now left.
  - intros d q Hin. pose proof (RankerMore.sorted_desc_head _ _ _ Hs) as Hall.
    rewrite Forall_forall in Hall. specialize (Hall _ Hin). cbn in Hall.
    split; [exact Hall|now apply Numeric.py_round_mono].
Qed.

(** Witness: the reference scenario. *)
Lemma top_prediction_is_argmax_witness :
  exists e rest q0,
    predict_top_k_from_json ex_model ex_req ex_cols ex_sev 5 = Ok (e :: rest) /\
    (disease e, q0) ∈ zip (classes_ ex_model) [(5 # 100)%Q; (95 # 100)%Q] /\
    probability e = py_round q0 4 /\
    forall d q, (d, q) ∈ zip (classes_ ex_model) [(5 # 100)%Q; (95 # 100)%Q] ->
      (q <= q0)%Q /\ (py_round q 4 <= probability e)%Q.
Proof.
  apply (top_prediction_is_argmax ex_model ex_req ex_cols ex_sev 5 [1; 3; 0]%Z
           [(5 # 100)%Q; (95 # 100)%Q]); [reflexivity|reflexivity|discriminate|lia].
Defined.

(** Every predicted disease is one of the classifier's classes, and when the
    classes are pairwise distinct no disease is predicted twice. *)
Theorem top_k_diseases_are_classes model req cols sev k out :
  predict_top_k_from_json model req cols sev k = Ok out ->
  (forall e, e ∈ out -> disease e ∈ classes_ model) /\
  (NoDup (classes_ model) -> NoDup (disease <$> out)).
Proof.
  unfold predict_top_k_from_json.
  destruct (encode_user_symptoms req cols sev) as [v|]; [|discriminate]. cbn.
  destruct (predict_proba model v) as [probs|]; [|discriminate]. cbn.
  intros [= <-].
  destruct (RankerMore.rank_top_k_diseases (classes_ model) probs k) as (l & Hsub & Hperm).
  pose proof (RankerMore.zip_fst_sublist (classes_ model) probs) as Hz.
  split.
  - intros e He. eapply elem_of_sublist; [|exact Hz]. rewrite <- Hperm.
    eapply elem_of_sublist; [|exact Hsub]. now apply list_elem_of_fmap_2.
  - intros Hnd. eapply sublist_NoDup; [|exact Hsub]. rewrite Hperm.
    eapply sublist_NoDup; [exact Hnd|exact Hz].
Qed.

(** Witness: the reference scenario. *)
Lemma top_k_diseases_are_classes_witness :
  (forall e, e ∈ [{| disease := "FungalInfection"; probability := (19 # 20)%Q |}] ->
     disease e ∈ classes_ ex_model) /\
  (NoDup (classes_ ex_model) ->
   NoDup (disease <$> [{| disease := "FungalInfection"; probability := (19 # 20)%Q |}])).
Proof.
  apply (top_k_diseases_are_classes ex_model ex_req ex_cols ex_sev 1).
  vm_compute. reflexivity.
Defined.

(** * Further properties of the analyzer *)

Module AnalyzerMore.
Import Loops Encoder Numeric Analyzer.

#[local] Arguments symptom_body : simpl never.
#[local] Arguments disease_body : simpl never.

(** Under the classifier contract the row of every class can be computed. *)
Lemma row_exists model symptoms cols sev bv p0 d :
  classifier_ok model (length cols) ->
  length bv = length cols ->
  length p0 = length (classes_ model) ->
  d ∈ classes_ model ->
  exists ds, disease_row model symptoms (index_dict cols)
               (index_dict (classes_ model)) sev bv p0 d ds.
Proof.
  intros Hok Hlen Hp0 Hd.
  destruct (index_dict_elem _ _ Hd) as [d_idx Hdi].
  pose proof (index_dict_lt _ _ _ Hdi) as Hlt.
  destruct (lookup_lt_is_Some_2 p0 d_idx) as [bp Hbp]; [lia|].
  destruct (symptom_loop_ok model (index_dict cols) sev bv d_idx bp ∅ symptoms)
    as [ds Hds].
  - intros s_idx Hs. destruct (Hok (<[s_idx := 0%Z]> bv)) as (p & Hp & Hpl).
    { now rewrite length_insert. }
    exists p. split; [assumption|]. apply lookup_lt_is_Some_2. lia.
  - intros s s_idx Hs. rewrite Hlen. eapply index_dict_lt, Hs.
  - exists ds, d_idx, bp. auto.
Qed.

(** The first prediction whose disease is not a class aborts the loop. *)
Lemma disease_loop_KeyError model symptoms fi (classes : list string) sev bv bprobs R0 preds :
  (forall pred, pred ∈ preds -> disease pred ∈ classes ->
     exists ds, disease_row model symptoms fi (index_dict classes) sev bv bprobs
                  (disease pred) ds) ->
  Exists (fun pred => disease pred ∉ classes) preds ->
  for_each (disease_body model symptoms fi (index_dict classes) sev bv bprobs) R0 preds
  = Raise KeyError.
Proof.
  revert R0. induction preds as [|x l IH]; intros R0 Hrow HE; [inversion HE|].
  cbn [for_each]. destruct (decide (disease x ∈ classes)) as [Hin|Hout].
  - destruct (Hrow x) as (ds & d_idx & bp & Hd & Hb & Hl);
      [apply elem_of_cons; now left|assumption|].
    assert (disease_body model symptoms fi (index_dict classes) sev bv bprobs R0 x
            = Ok (<[disease x := ds]> R0)) as ->.
    { unfold disease_body, dict_getitem, list_getitem.
      rewrite Hd. cbn. rewrite Hb. cbn. now rewrite Hl. }
    cbn. apply IH.
    + intros pred Hp. apply Hrow, elem_of_cons. now right.
    + inversion HE; subst; [contradiction|assumption].
  - apply index_dict_None in Hout. unfold disease_body, dict_getitem.
    now rewrite Hout.
Qed.

Lemma scale_entry_mono H q1 q2 :
  (q1 <= q2)%Q ->
  (raw (scale_entry H q1) <= raw (scale_entry H q2))%Q /\
  (scaled (scale_entry H q1) <= scaled (scale_entry H q2))%Q.
Proof.
  intros Hq. unfold scale_entry. cbn. split; [now apply py_round_mono|].
  destruct (Qle_bool H 0) eqn:E; [apply Qle_refl|].
  assert (0 < H)%Q as Hpos.
  { apply Qnot_le_lt. intros Hle. apply Qle_bool_iff in Hle. congruence. }
  apply py_round_mono. pose proof (Qinv_lt_0_compat _ Hpos) as Hinv.
  unfold Qdiv. nra.
Qed.

End AnalyzerMore.

(** A prediction whose disease is not one of the classifier's classes makes
    the analyzer raise [KeyError] (on a well-typed request and under the
    classifier contract, so that nothing else fails first). *)
Theorem unknown_disease_raises_KeyError model req preds cols sev :
  Forall is_str (symptoms_of req) ->
  classifier_ok model (length cols) ->
  Exists (fun pred => disease pred ∉ classes_ model) preds ->
  calculate_symptom_contributions model req preds cols sev = Raise KeyError.
Proof.
  intros Hstr Hok HE. unfold calculate_symptom_contributions, raw_impact.
  destruct (Encoder.encode_ok req cols sev Hstr) as (bv & -> & Hlen). cbn.
  destruct (Hok bv Hlen) as (p0 & -> & Hp0). cbn.
  rewrite AnalyzerMore.disease_loop_KeyError; [reflexivity| |exact HE].
  intros pred _ Hin. now apply AnalyzerMore.row_exists.
Qed.

(** Witness: a disease the reference classifier does not know. *)
Lemma unknown_disease_raises_KeyError_witness :
  calculate_symptom_contributions ex_model ex_req
    [{| disease := "Measles"; probability := 1%Q |}] ex_cols ex_sev
  = Raise KeyError.
Proof.
  apply (unknown_disease_raises_KeyError ex_model ex_req
           [{| disease := "Measles"; probability := 1%Q |}] ex_cols ex_sev).
  - vm_compute. repeat constructor.
  - apply Analyzer.ex_model_ok.
  - apply Exists_cons_hd. cbn. intros H.
    repeat (apply elem_of_cons in H as [H|H]; [discriminate H|]).
    now apply elem_of_nil in H.
Defined.

Module Pipeline.

Lemma pipeline_ok model req cols sev k :
  Forall is_str (symptoms_of req) ->
  classifier_ok model (length cols) ->
  exists preds final,
    predict_top_k_from_json model req cols sev k = Ok preds /\
    calculate_symptom_contributions model req preds cols sev = Ok final /\
    forall d, is_Some (final !! d) <-> exists e, e ∈ preds /\ disease e = d.
Proof.
  intros Hstr Hok.
  destruct (Encoder.encode_ok req cols sev Hstr) as (v & Hv & Hlen).
  destruct (Hok v Hlen) as (probs & Hp & Hpl).
  exists (rank_top_k (classes_ model) probs k).
  assert (forall e, e ∈ rank_top_k (classes_ model) probs k ->
                    disease e ∈ classes_ model) as Hcls.
  { intros e He.
    destruct (RankerMore.rank_top_k_diseases (classes_ model) probs k)
      as (l & Hsub & Hperm).
    eapply elem_of_sublist; [|apply RankerMore.zip_fst_sublist].
    rewrite <- Hperm. eapply elem_of_sublist; [|exact Hsub].
    now apply list_elem_of_fmap_2. }
  destruct (Analyzer.raw_impact_ok model req _ cols sev Hstr Hok Hcls) as [R HR].
  exists (scale_contributions R).
  split; [now apply (Ranker.predict_top_k_eq _ _ _ _ _ v)|].
  split; [unfold calculate_symptom_contributions; now rewrite HR|].
  destruct (Analyzer.raw_impact_inv _ _ _ _ _ _ HR) as (bv & p0 & _ & _ & Hrow & Hcov).
  intros d. unfold scale_contributions. rewrite lookup_fmap, fmap_is_Some. split.
  - intros [ds Hd]. now destruct (Hrow _ _ Hd).
  - intros (e & He & <-). now apply Hcov.
Qed.

End Pipeline.

(** The predictions of the ranker can always be analyzed: on a well-typed
    request and under the classifier contract, ranking then analyzing
    succeeds for every [k], and the analysis has a row for exactly the
    predicted diseases. *)
Theorem predict_then_analyze model req cols sev k :
  Forall is_str (symptoms_of req) ->
  classifier_ok model (length cols) ->
  exists preds final,
    predict_top_k_from_json model req cols sev k = Ok preds /\
    calculate_symptom_contributions model req preds cols sev = Ok final /\
    forall d, is_Some (final !! d) <-> exists e, e ∈ preds /\ disease e = d.
Proof. apply Pipeline.pipeline_ok. Qed.

(** Witness: the reference scenario with [k = 5]. *)
Lemma predict_then_analyze_witness :
  exists preds final,
    predict_top_k_from_json ex_model ex_req ex_cols ex_sev 5 = Ok preds /\
    calculate_symptom_contributions ex_model ex_req preds ex_cols ex_sev = Ok final /\
    forall d, is_Some (final !! d) <-> exists e, e ∈ preds /\ disease e = d.
Proof.
  apply (predict_then_analyze ex_model ex_req ex_cols ex_sev 5).
  - vm_compute. repeat constructor.
  - apply Analyzer.ex_model_ok.
Defined.

(** Scaling keeps the order of the raw scores over the whole result set:
    of two entries, of any diseases, the one with the larger raw score has
    the larger (or equal) reported raw and scaled values. *)
Theorem scaling_preserves_order R d1 ds1 s1 q1 d2 ds2 s2 q2 :
  R !! d1 = Some ds1 -> ds1 !! s1 = Some q1 ->
  R !! d2 = Some ds2 -> ds2 !! s2 = Some q2 ->
  (q1 <= q2)%Q ->
  exists row1 e1 row2 e2,
    scale_contributions R !! d1 = Some row1 /\ row1 !! s1 = Some e1 /\
    scale_contributions R !! d2 = Some row2 /\ row2 !! s2 = Some e2 /\
    (raw e1 <= raw e2)%Q /\ (scaled e1 <= scaled e2)%Q.
Proof.
  intros Hd1 Hs1 Hd2 Hs2 Hq.
  destruct (Analyzer.scale_lookup_2 _ _ _ _ _ Hd1 Hs1) as (row1 & Hr1 & He1).
  destruct (Analyzer.scale_lookup_2 _ _ _ _ _ Hd2 Hs2) as (row2 & Hr2 & He2).
  eexists row1, _, row2, _. repeat (split; [eassumption|]).
  now apply AnalyzerMore.scale_entry_mono.
Qed.

(** Witness: a table with two scores of one disease. *)
Lemma scaling_preserves_order_witness :
  exists row1 e1 row2 e2,
    scale_contributions {["Flu" := <["a" := (1 # 4)%Q]> {["b" := (3 # 4)%Q]}]} !! "Flu"
    = Some row1 /\ row1 !! "a" = Some e1 /\
    scale_contributions {["Flu" := <["a" := (1 # 4)%Q]> {["b" := (3 # 4)%Q]}]} !! "Flu"
    = Some row2 /\ row2 !! "b" = Some e2 /\
    (raw e1 <= raw e2)%Q /\ (scaled e1 <= scaled e2)%Q.
Proof.
  apply (scaling_preserves_order _ "Flu" (<["a" := (1 # 4)%Q]> {["b" := (3 # 4)%Q]})
           "a" (1 # 4)%Q "Flu" (<["a" := (1 # 4)%Q]> {["b" := (3 # 4)%Q]}) "b" (3 # 4)%Q);
    try reflexivity.
  unfold Qle. cbn. lia.
Defined.

(** * The request handler *)

(** On a body with a non-empty list of string symptoms, and under the
    classifier contract, the handler answers 200 with the ranked
    predictions for [k = 5] and an analysis that has a row for exactly the
    predicted diseases. *)
Theorem predict_answers_200 model feature_map severity_dict data :
  symptoms_of data <> [] ->
  Forall is_str (symptoms_of data) ->
  classifier_ok model (length feature_map) ->
  exists predictions contributions,
    predict model feature_map severity_dict (Some data)
    = Response200 predictions contributions /\
    predict_top_k_from_json model data feature_map severity_dict 5 = Ok predictions /\
    calculate_symptom_contributions model data predictions feature_map severity_dict
    = Ok contributions /\
    forall d, is_Some (contributions !! d) <->
              exists e, e ∈ predictions /\ disease e = d.
Proof.
  intros Hne Hstr Hok.
  destruct (Pipeline.pipeline_ok model data feature_map severity_dict 5 Hstr Hok)
    as (preds & final & Hp & Hc & Hrows).
  exists preds, final. split; [|auto]. unfold predict.
  rewrite decide_False.
  - destruct (symptoms_of data); [congruence|].
    unfold TOP_K_PREDICTIONS. rewrite Hp. cbn. now rewrite Hc.
  - intros ->. apply Hne. unfold symptoms_of. now rewrite lookup_empty.
Qed.

(** Witness: the reference request. *)
Lemma predict_answers_200_witness :
  exists predictions contributions,
    predict ex_model ex_cols ex_sev (Some ex_req)
    = Response200 predictions contributions.
Proof.
  destruct (predict_answers_200 ex_model ex_cols ex_sev ex_req)
    as (p & c & H & _).
  - discriminate.
  - vm_compute. repeat constructor.
  - apply Analyzer.ex_model_ok.
  - eauto.
Defined.

(** A request that passes the validation but holds a symptom that is not a
    string is answered with 500, not with 400: the element types are not
    validated and the encoder's exception is caught by the handler. *)
Theorem predict_answers_500_on_non_string model feature_map severity_dict data :
  Exists (fun x => ~ is_str x) (symptoms_of data) ->
  predict model feature_map severity_dict (Some data)
  = Response500 "Prediction failed. Internal Server Error".
Proof.
  intros HE. unfold predict. rewrite decide_False.
  - destruct (symptoms_of data) as [|x l] eqn:Hs; [inversion HE|].
    unfold predict_top_k_from_json, encode_user_symptoms.
    rewrite Hs, EncoderMore.encode_loop_raises by exact HE. reflexivity.
  - intros ->. unfold symptoms_of in HE. rewrite lookup_empty in HE. inversion HE.
Qed.

(** Witness: a number among the symptoms. *)
Lemma predict_answers_500_on_non_string_witness :
  predict ex_model ex_cols ex_sev (Some (request [PyStr "itching"; PyInt 3]))
  = Response500 "Prediction failed. Internal Server Error".
Proof.
  apply (predict_answers_500_on_non_string ex_model ex_cols ex_sev
           (request [PyStr "itching"; PyInt 3])).
  vm_compute. apply Exists_cons_tl, Exists_cons_hd. intros H. exact H.
Defined.

(** * The training pipeline *)

Module Training.
Import Loops Encoder.

#[local] Arguments encode_body : simpl never.

Lemma cleaned_cell_fixed df r s :
  r ∈ clean_dataset df -> s ∈ row_symptoms r -> clean_str s = s.
Proof.
  unfold clean_dataset. intros Hr Hs.
  apply list_elem_of_fmap in Hr as (raw & -> & _). cbn in Hs.
  apply list_elem_of_fmap in Hs as (c & -> & _).
  apply Normalizer.clean_str_normalize.
Qed.

Lemma elem_of_extract df s :
  s ∈ extract_all_symptoms df <->
  (exists r, r ∈ df /\ s ∈ row_symptoms r) /\ s <> "nan" /\ s <> "".
Proof.
  unfold extract_all_symptoms. rewrite merge_sort_Permutation, elem_of_elements.
  rewrite !elem_of_difference, elem_of_list_to_set, list_elem_of_bind.
  rewrite !elem_of_singleton. split.
  - intros [[(r & Hs & Hr) Hn] He]. eauto.
  - intros [(r & Hr & Hs) [Hn He]]. eauto.
Qed.

Lemma extract_NoDup df : NoDup (extract_all_symptoms df).
Proof.
  unfold extract_all_symptoms. rewrite merge_sort_Permutation. apply NoDup_elements.
Qed.

Lemma extract_sorted df : StronglySorted String.le (extract_all_symptoms df).
Proof. unfold extract_all_symptoms. apply StronglySorted_merge_sort; apply _. Qed.

(** On symptoms that the cleaning leaves alone the encoder's loop is the
    loop of [build_feature_matrix]. *)
Lemma feature_row_loop cols sev cells v :
  Forall (fun s => clean_str s = s) cells ->
  for_each (encode_body (index_dict cols) sev) v (PyStr <$> cells)
  = Ok (foldl (fun x symptom =>
                 match index_dict cols !! symptom with
                 | Some i => <[i := default 1%Z (sev !! symptom)]> x
                 | None => x
                 end) v cells).
Proof.
  intros Hc. revert v. induction Hc as [|s cells Hs _ IH]; intros v; [reflexivity|].
  cbn [fmap list_fmap for_each foldl].
  destruct (index_dict cols !! s) as [i|] eqn:E.
  - rewrite (encode_body_known _ _ _ _ i) by now rewrite Hs. cbn. apply IH.
  - rewrite encode_body_unknown by now rewrite Hs. cbn. apply IH.
Qed.

Lemma dict_set_keys k v d k' :
  k' ∈ (dict_set k v d).*1 <-> k' = k \/ k' ∈ d.*1.
Proof.
  induction d as [|[k0 v0] d IH]; cbn.
  - rewrite list_elem_of_singleton, elem_of_nil. tauto.
  - case_decide as Hk; cbn; rewrite !elem_of_cons; [subst; tauto|].
    rewrite IH. tauto.
Qed.

Lemma dict_set_NoDup k v d : NoDup d.*1 -> NoDup (dict_set k v d).*1.
Proof.
  induction d as [|[k0 v0] d IH]; cbn; intros Hnd.
  - apply NoDup_singleton.
  - apply NoDup_cons in Hnd as [Hk0 Hnd]. case_decide as Hk; cbn.
    + subst. now apply NoDup_cons.
    + apply NoDup_cons. split; [|now apply IH].
      rewrite dict_set_keys. intros [->|Hin]; [congruence|contradiction].
Qed.

Lemma table_of_dict_set k v d : table_of (dict_set k v d) = <[k := v]> (table_of d).
Proof.
  unfold table_of. induction d as [|[k0 v0] d IH]; cbn; [reflexivity|].
  case_decide as Hk; cbn.
  - subst. now rewrite insert_insert_eq.
  - rewrite IH. now apply insert_insert_ne.
Qed.

(** Folding [dict_set] is folding [insert], whatever key each item is
    stored under. *)
Lemma table_of_foldl (key : string -> string) l d :
  table_of (foldl (fun d kv => dict_set (key kv.1) kv.2 d) d l)
  = foldl (fun m (kv : string * Z) => <[key kv.1 := kv.2]> m) (table_of d) l.
Proof.
  revert d. induction l as [|kv l IH]; intros d; cbn; [reflexivity|].
  now rewrite IH, table_of_dict_set.
Qed.

Lemma foldl_dict_set_NoDup (key : string -> string) l d :
  NoDup d.*1 -> NoDup (foldl (fun d kv => dict_set (key kv.1) kv.2 d) d l).*1.
Proof.
  revert d. induction l as [|kv l IH]; intros d Hd; cbn; [assumption|].
  apply IH. now apply dict_set_NoDup.
Qed.

Lemma foldl_dict_set_keys (key : string -> string) l d k :
  k ∈ (foldl (fun d kv => dict_set (key kv.1) kv.2 d) d l).*1 ->
  k ∈ d.*1 \/ exists kv, kv ∈ l /\ k = key kv.1.
Proof.
  revert d. induction l as [|kv l IH]; intros d; cbn; [auto|].
  intros H. apply IH in H as [H|(kv' & Hin & ->)].
  - apply dict_set_keys in H as [->|H]; [|auto].
    right. exists kv. split; [apply elem_of_cons; now left|reflexivity].
  - right. exists kv'. split; [apply elem_of_cons; now right|reflexivity].
Qed.

(** The last item stored under a key decides the value read back. *)
Lemma foldl_insert_lookup (key : string -> string) (l : list (string * Z)) k v :
  foldl (fun (m : gmap string Z) (kv : string * Z) => <[key kv.1 := kv.2]> m) ∅ l !! k
  = Some v <->
  exists i raw, l !! i = Some (raw, v) /\ key raw = k /\
    forall j kv, (i < j)%nat -> l !! j = Some kv -> key kv.1 <> k.
Proof.
  revert v. induction l as [|[raw0 v0] l IH] using rev_ind; intros v.
  - cbn. rewrite lookup_empty. split; [discriminate|].
    intros (i & raw & H & _). discriminate H.
  - rewrite foldl_app. cbn. destruct (decide (key raw0 = k)) as [<-|Hne].
    + rewrite lookup_insert_eq. split.
      * intros [= <-]. exists (length l), raw0.
        split; [now rewrite list_lookup_middle|]. split; [reflexivity|].
        intros j kv Hj Hkv. apply lookup_lt_Some in Hkv.
        rewrite length_app in Hkv. cbn in Hkv. lia.
      * intros (i & raw & Hi & Hk & Hlast).
        destruct (decide (i = length l)) as [->|Hi'].
        -- rewrite list_lookup_middle in Hi by reflexivity. congruence.
        -- exfalso. apply (Hlast (length l) (raw0, v0)).
           ++ apply lookup_lt_Some in Hi. rewrite length_app in Hi. cbn in Hi. lia.
           ++ now rewrite list_lookup_middle.
           ++ reflexivity.
    + rewrite lookup_insert_ne by assumption. rewrite IH. split.
      * intros (i & raw & Hi & Hk & Hlast). exists i, raw.
        split; [now apply lookup_app_l_Some|]. split; [assumption|].
        intros j kv Hj Hkv. apply lookup_app_Some in Hkv as [Hkv|[Hlen Hkv]].
        -- eapply Hlast; eauto.
        -- destruct (j - length l)%nat; cbn in Hkv; [|discriminate].
           injection Hkv as <-. exact Hne.
      * intros (i & raw & Hi & Hk & Hlast).
        apply lookup_app_Some in Hi as [Hi|[Hlen Hi]].
        -- exists i, raw. split; [assumption|]. split; [assumption|].
           intros j kv Hj Hkv. eapply Hlast; [exact Hj|].
           now apply lookup_app_l_Some.
        -- destruct (i - length l)%nat; cbn in Hi; [|discriminate].
           injection Hi as <- <-. congruence.
Qed.

(** Every key of the normalized table is a normalized string. *)
Lemma normalize_keys_normal d k :
  k ∈ (normalize_keys d).*1 -> exists raw, k = normalize_symptom (PyStr raw).
Proof.
  unfold normalize_keys. intros H.
  apply (foldl_dict_set_keys (fun k => normalize_symptom (PyStr k))) in H
    as [H|(kv & _ & ->)]; [|eauto].
  cbn in H. now apply elem_of_nil in H.
Qed.

Lemma trained_key_fixed d k :
  is_Some (table_of (normalize_keys d) !! k) -> clean_str k = k.
Proof.
  intros [v Hv]. unfold table_of in Hv. apply elem_of_list_to_map_2 in Hv.
  assert (k ∈ (normalize_keys d).*1) as Hk.
  { apply list_elem_of_fmap. now exists (k, v). }
  apply normalize_keys_normal in Hk as [raw ->].
  apply Normalizer.clean_str_normalize.
Qed.

End Training.

(** The feature list holds exactly the symptom cells of the frame other
    than ["nan"] and [""], each once, in ascending order. *)
Theorem extract_all_symptoms_spec df :
  (forall s, s ∈ extract_all_symptoms df <->
     (exists r, r ∈ df /\ s ∈ row_symptoms r) /\ s <> "nan" /\ s <> "") /\
  NoDup (extract_all_symptoms df) /\
  StronglySorted String.le (extract_all_symptoms df).
Proof.
  split; [apply Training.elem_of_extract|].
  split; [apply Training.extract_NoDup|apply Training.extract_sorted].
Qed.

(** On the feature list produced by training, the feature index built at
    inference is the inverse of the position: a name is mapped to [i]
    exactly when it stands at position [i]. *)
Theorem feature_index_roundtrip df s i :
  index_dict (extract_all_symptoms df) !! s = Some i <->
  extract_all_symptoms df !! i = Some s.
Proof.
  split; [apply Loops.index_dict_lookup|].
  apply Loops.index_dict_NoDup, Training.extract_NoDup.
Qed.

(** Training and inference agree on cleaned data: every row of the matrix
    built by [build_feature_matrix] from a cleaned frame is the vector that
    [encode_user_symptoms] returns for the symptoms of that row. *)
Theorem training_rows_are_encodings df cols sev :
  NoDup cols ->
  Forall2 (fun r x =>
             encode_user_symptoms (request (PyStr <$> row_symptoms r)) cols sev = Ok x)
          (clean_dataset df)
          (build_feature_matrix (clean_dataset df) cols sev).1.
Proof.
  intros _. cbn. apply Forall2_fmap_r, Forall_Forall2_diag, Forall_forall.
  intros r Hr. unfold encode_user_symptoms, feature_row.
  rewrite Encoder.symptoms_of_request. cbn. apply Training.feature_row_loop.
  apply Forall_forall. intros s Hs. eapply Training.cleaned_cell_fixed; eauto.
Qed.

(** Witness: a frame of one row with an upper-case cell and a missing
    cell. *)
Lemma training_rows_are_encodings_witness :
  Forall2 (fun r x =>
             encode_user_symptoms (request (PyStr <$> row_symptoms r)) ex_cols ex_sev
             = Ok x)
          (clean_dataset [{| raw_disease := Text "Flu";
                             raw_symptoms := [Text " Skin Rash"; NaN] |}])
          (build_feature_matrix
             (clean_dataset [{| raw_disease := Text "Flu";
                                raw_symptoms := [Text " Skin Rash"; NaN] |}])
             ex_cols ex_sev).1.
Proof.
  apply (training_rows_are_encodings
           [{| raw_disease := Text "Flu"; raw_symptoms := [Text " Skin Rash"; NaN] |}]
           ex_cols ex_sev).
  unfold ex_cols. repeat (apply NoDup_cons; split;
    [intros H; repeat (apply elem_of_cons in H as [H|H]; [discriminate H|]);
     now apply elem_of_nil in H|]).
  apply NoDup_nil_2.
Defined.

(** A feature name produced by training, sent back verbatim as the only
    symptom, sets its own cell and no other. *)
Theorem trained_feature_roundtrip df sev i f :
  extract_all_symptoms (clean_dataset df) !! i = Some f ->
  encode_user_symptoms (request [PyStr f]) (extract_all_symptoms (clean_dataset df)) sev
  = Ok (<[i := default 1%Z (sev !! f)]>
          (replicate (length (extract_all_symptoms (clean_dataset df))) 0%Z)).
Proof.
  intros Hi.
  assert (clean_str f = f) as Hf.
  { apply list_elem_of_lookup_2, Training.elem_of_extract in Hi as [(r & Hr & Hs) _].
    eapply Training.cleaned_cell_fixed; eauto. }
  apply Loops.index_dict_NoDup in Hi; [|apply Training.extract_NoDup].
  unfold encode_user_symptoms. rewrite Encoder.symptoms_of_request. cbn [for_each].
  unfold encode_body. cbn. now rewrite Hf, Hi.
Qed.

(** Witness: the frame of one row, whose only feature is ["skin_rash"]. *)
Lemma trained_feature_roundtrip_witness :
  encode_user_symptoms (request [PyStr "skin_rash"])
    (extract_all_symptoms
       (clean_dataset [{| raw_disease := Text "Flu";
                          raw_symptoms := [Text " Skin Rash"; NaN] |}])) ex_sev
  = Ok (<[0%nat := default 1%Z (ex_sev !! "skin_rash")]>
          (replicate
             (length (extract_all_symptoms
                        (clean_dataset [{| raw_disease := Text "Flu";
                                           raw_symptoms := [Text " Skin Rash"; NaN] |}])))
             0%Z)).
Proof.
  apply (trained_feature_roundtrip
           [{| raw_disease := Text "Flu"; raw_symptoms := [Text " Skin Rash"; NaN] |}]
           ex_sev 0 "skin_rash").
  vm_compute. reflexivity.
Defined.

(** [build_severity_dict] keeps, for each symptom, the weight of its last
    row (rows beyond the shorter column are ignored), and its keys are
    pairwise distinct. *)
Theorem severity_dict_last_wins symptom weight k v :
  NoDup (build_severity_dict symptom weight).*1 /\
  (table_of (build_severity_dict symptom weight) !! k = Some v <->
   exists i, symptom !! i = Some k /\ weight !! i = Some v /\
     forall j, (i < j)%nat -> (j < length weight)%nat -> symptom !! j <> Some k).
Proof.
  split.
  { apply (Training.foldl_dict_set_NoDup (fun k => k)). constructor. }
  unfold build_severity_dict.
  rewrite (Training.table_of_foldl (fun k => k)).
  change (table_of []) with (∅ : gmap string Z).
  rewrite (Training.foldl_insert_lookup (fun k => k)). split.
  - intros (i & raw & Hi & -> & Hlast).
    apply lookup_zip_with_Some in Hi as (a & b & Heq & Ha & Hb).
    injection Heq as -> ->.
    exists i. repeat split; [assumption..|].
    intros j Hj Hlen Hsj. destruct (lookup_lt_is_Some_2 weight j Hlen) as [w Hw].
    apply (Hlast j (a, w) Hj); [|reflexivity].
    apply lookup_zip_with_Some. eauto.
  - intros (i & Ha & Hb & Hlast). exists i, k.
    split; [apply lookup_zip_with_Some; eauto|]. split; [reflexivity|].
    intros j [a w] Hj Hkv Hak. cbn in Hak. subst a.
    apply lookup_zip_with_Some in Hkv as (a' & w' & Heq & Ha' & Hw').
    injection Heq as <- <-.
    apply (Hlast j Hj); [eapply lookup_lt_Some, Hw'|exact Ha'].
Qed.

(** Every key of the table normalized by [main] is left unchanged by the
    inference cleaning; hence a symptom that the cleaning changes (such as
    ["Skin Rash"]) is not a key, and the encoder, which looks the weight up
    by the original string, writes the default weight 1 into its cell. *)
Theorem trained_table_defaults_uncleaned symptom weight s :
  clean_str s <> s ->
  table_of (normalize_keys (build_severity_dict symptom weight)) !! s = None /\
  forall cols i, index_dict cols !! clean_str s = Some i ->
    encode_user_symptoms (request [PyStr s]) cols
      (table_of (normalize_keys (build_severity_dict symptom weight)))
    = Ok (<[i := 1%Z]> (replicate (length cols) 0%Z)).
Proof.
  intros Hs.
  assert (table_of (normalize_keys (build_severity_dict symptom weight)) !! s = None)
    as Hnone.
  { destruct (table_of _ !! s) as [w|] eqn:E; [|reflexivity].
    exfalso. apply Hs. eapply Training.trained_key_fixed. rewrite E. eauto. }
  split; [exact Hnone|]. intros cols i Hi.
  unfold encode_user_symptoms. rewrite Encoder.symptoms_of_request. cbn [for_each].
  unfold encode_body. cbn. now rewrite Hi, Hnone.
Qed.

(** Witness: ["Skin Rash"] against a table that lists ["skin rash"] with
    weight 3. *)
Lemma trained_table_defaults_uncleaned_witness :
  encode_user_symptoms (request [PyStr "Skin Rash"]) ex_cols
    (table_of (normalize_keys (build_severity_dict ["skin rash"] [3%Z])))
  = Ok (<[1%nat := 1%Z]> (replicate (length ex_cols) 0%Z)).
Proof.
  apply (trained_table_defaults_uncleaned ["skin rash"] [3%Z] "Skin Rash").
  - vm_compute. discriminate.
  - reflexivity.
Defined.

(** Every symptom offered by [/symptoms] for a table normalized by [main]
    is unchanged by the cleaning, so that, sent back verbatim, it is encoded
    with its own table weight. *)
Theorem listed_symptom_roundtrip symptom weight s :
  s ∈ get_symptoms (table_of (normalize_keys (build_severity_dict symptom weight))) ->
  clean_str s = s /\
  exists w,
    table_of (normalize_keys (build_severity_dict symptom weight)) !! s = Some w /\
    forall cols i, index_dict cols !! s = Some i ->
      encode_user_symptoms (request [PyStr s]) cols
        (table_of (normalize_keys (build_severity_dict symptom weight)))
      = Ok (<[i := w]> (replicate (length cols) 0%Z)).
Proof.
  unfold get_symptoms. intros Hs.
  apply list_elem_of_fmap in Hs as ([k w] & -> & Hkw). cbn.
  apply elem_of_map_to_list in Hkw.
  assert (clean_str k = k) as Hk.
  { eapply Training.trained_key_fixed. rewrite Hkw. eauto. }
  split; [exact Hk|]. exists w. split; [exact Hkw|].
  intros cols i Hi. unfold encode_user_symptoms.
  rewrite Encoder.symptoms_of_request. cbn [for_each].
  unfold encode_body. cbn. now rewrite Hk, Hi, Hkw.
Qed.

(** Witness: the table built from one row, ["Skin Rash"] with weight 3. *)
Lemma listed_symptom_roundtrip_witness :
  clean_str "skin_rash" = "skin_rash" /\
  exists w,
    table_of (normalize_keys (build_severity_dict ["Skin Rash"] [3%Z])) !! "skin_rash"
    = Some w /\
    forall cols i, index_dict cols !! "skin_rash" = Some i ->
      encode_user_symptoms (request [PyStr "skin_rash"]) cols
        (table_of (normalize_keys (build_severity_dict ["Skin Rash"] [3%Z])))
      = Ok (<[i := w]> (replicate (length cols) 0%Z)).
Proof.
  apply (listed_symptom_roundtrip ["Skin Rash"] [3%Z] "skin_rash").
  vm_compute. apply elem_of_cons. now left.
Defined.
